(** * Tracker: gimbal protocol, PID loop and identity-lock selection

    A shallow embedding of the core of the Tracker repository:

    - [Protocol]   : [siyi_sdk/siyi_protocol.py]   (class [SIYIProtocol])
    - [Connection] : [siyi_sdk/siyi_connection.py] (class [SIYIConnection])
    - [Sdk]        : [siyi_sdk/siyi_gimbal.py] and [siyi_sdk/__init__.py]
    - [Pid]        : [utils/pid.py]                (class [PIDController])
    - [Gimbal]     : [hardware/gimbal.py]          (class [GimbalController])
    - [Tracker]    : [detection/tracker.py]        (class [ObjectTracker])

    Conventions.  Python integers are [Z]; [bytes] values are [list byte];
    the floats of the control loop are exact rationals [Q] (rounding is not
    modelled there); the floats of the tracker, whose selection compares
    rounded distances, are IEEE 754 binary64 numbers ([Float]);
    [time.time()] readings are explicit arguments; an exception that leaves a
    function is the [Raise] outcome of [pyres]; mutable objects are threaded
    explicitly (every method returns the new object next to its result). *)

From Stdlib Require Import ZArith List Bool Lia String QArith Qabs Qminmax.
From Stdlib Require Import Strings.Byte.
From Stdlib Require Import Floats.SpecFloat.
Import ListNotations.
Local Open Scope Z_scope.

(* ------------------------------------------------------------------ *)
(** ** Python outcomes and the [struct] module                          *)
(* ------------------------------------------------------------------ *)

Module Py.

Inductive exn : Type := StructError | OSError.

(** Outcome of a Python call: a value or an exception that propagates. *)
Inductive pyres (A : Type) : Type :=
| Ret (a : A)
| Raise (e : exn).
Arguments Ret {A} a.
Arguments Raise {A} e.

Definition bind {A B} (c : pyres A) (k : A -> pyres B) : pyres B :=
  match c with
  | Ret a => k a
  | Raise e => Raise e
  end.

Definition byte_to_Z (b : byte) : Z := Z.of_N (Byte.to_N b).

Definition Z_to_byte (z : Z) : byte :=
  match Byte.of_N (Z.to_N z) with
  | Some b => b
  | None => x00
  end.

(** [packet[a:b]] for non-negative indices. *)
Definition slice {A} (l : list A) (a b : Z) : list A :=
  firstn (Z.to_nat (b - a)) (skipn (Z.to_nat a) l).

Definition len {A} (l : list A) : Z := Z.of_nat (List.length l).

(** [struct.pack('B', v)]: unsigned byte, [struct.error] out of range. *)
Definition pack_B (v : Z) : pyres (list byte) :=
  if (0 <=? v) && (v <=? 255) then Ret [Z_to_byte v] else Raise StructError.

(** [struct.pack('b', v)]: signed byte in two's complement. *)
Definition pack_b (v : Z) : pyres (list byte) :=
  if (-128 <=? v) && (v <=? 127) then Ret [Z_to_byte (v mod 256)]
  else Raise StructError.

(** [struct.pack('<H', v)]: unsigned 16 bit, low byte first. *)
Definition pack_H (v : Z) : pyres (list byte) :=
  if (0 <=? v) && (v <=? 65535)
  then Ret [Z_to_byte (v mod 256); Z_to_byte (v / 256)]
  else Raise StructError.

(** [struct.unpack('<H', l)[0]]: needs exactly two bytes. *)
Definition unpack_H (l : list byte) : pyres Z :=
  match l with
  | [lo; hi] => Ret (byte_to_Z lo + 256 * byte_to_Z hi)
  | _ => Raise StructError
  end.

(** [struct.pack('<HBHHB', a, b, c, d, e)]: no padding in [<] mode. *)
Definition pack_HBHHB (a b c d e : Z) : pyres (list byte) :=
  bind (pack_H a) (fun la =>
  bind (pack_B b) (fun lb =>
  bind (pack_H c) (fun lc =>
  bind (pack_H d) (fun ld =>
  bind (pack_B e) (fun le =>
  Ret (la ++ lb ++ lc ++ ld ++ le)))))).

(** [struct.unpack('<HBHHB', l)]: needs exactly eight bytes. *)
Definition unpack_HBHHB (l : list byte) : pyres (Z * Z * Z * Z * Z) :=
  match l with
  | [a0; a1; b; c0; c1; d0; d1; e] =>
      Ret (byte_to_Z a0 + 256 * byte_to_Z a1,
           byte_to_Z b,
           byte_to_Z c0 + 256 * byte_to_Z c1,
           byte_to_Z d0 + 256 * byte_to_Z d1,
           byte_to_Z e)
  | _ => Raise StructError
  end.

(** [struct.pack('bb', y, p)]. *)
Definition pack_bb (y p : Z) : pyres (list byte) :=
  bind (pack_b y) (fun ly =>
  bind (pack_b p) (fun lp => Ret (ly ++ lp))).

End Py.
Import Py.

Notation "x <- c ;; k" := (Py.bind c (fun x => k))
  (at level 61, c at next level, right associativity).

(* ------------------------------------------------------------------ *)
(** ** siyi_protocol.py                                                 *)
(* ------------------------------------------------------------------ *)

Module Protocol.

Definition STX : Z := 0x6655.
Definition CTRL_NEED_ACK : Z := 0x00.
Definition CTRL_ACK_PACK : Z := 0x01.

(** The object: its only attribute is the frame sequence counter. *)
Record SIYIProtocol : Type := { sequence : Z }.

(** [SIYIProtocol.__init__] *)
Definition init : SIYIProtocol := {| sequence := 0 |}.

(** One turn of the inner [for _ in range(8)] loop. *)
Definition crc_shift (crc : Z) : Z :=
  Z.land
    (if Z.eqb (Z.land crc 0x8000) 0
     then Z.shiftl crc 1
     else Z.lxor (Z.shiftl crc 1) 0x1021)
    0xFFFF.

(** One turn of the outer [for byte in data] loop. *)
Definition crc_byte (crc : Z) (b : byte) : Z :=
  Nat.iter 8 crc_shift (Z.lxor crc (Z.shiftl (byte_to_Z b) 8)).

Definition _calculate_crc16 (data : list byte) : Z :=
  fold_left crc_byte data 0.

Definition _get_next_sequence (self : SIYIProtocol) : SIYIProtocol * Z :=
  let seq := sequence self in
  ({| sequence := (sequence self + 1) mod 65536 |}, seq).

Definition build_packet (self : SIYIProtocol) (cmd_id : Z)
    (data : list byte) (need_ack : bool) : SIYIProtocol * pyres (list byte) :=
  let ctrl := if need_ack then CTRL_NEED_ACK else CTRL_ACK_PACK in
  let data_len := len data in
  let '(self, seq) := _get_next_sequence self in
  (self,
   header <- pack_HBHHB STX ctrl data_len seq cmd_id ;;
   let packet := header ++ data in
   let crc16 := _calculate_crc16 packet in
   tail <- pack_H crc16 ;;
   Ret (packet ++ tail)).

(** The dictionary returned by [parse_packet]; its keys are fixed. *)
Record Parsed : Type := {
  ctrl : Z;
  data_len : Z;
  seq : Z;
  cmd_id : Z;
  data : list byte;
  crc16 : Z
}.

Definition parse_packet (packet : list byte) : pyres (option Parsed) :=
  if len packet <? 10 then Ret None else
  match unpack_HBHHB (slice packet 0 8) with
  | Raise StructError => Ret None
  | Raise e => Raise e
  | Ret (stx, ctrl, data_len, seq, cmd_id) =>
      if negb (stx =? STX) then Ret None else
      let expected_len := 8 + data_len + 2 in
      if len packet <? expected_len then Ret None else
      let data := slice packet 8 (8 + data_len) in
      received_crc16 <-
        unpack_H (slice packet (8 + data_len) (8 + data_len + 2)) ;;
      let calculated_crc16 := _calculate_crc16 (slice packet 0 (8 + data_len)) in
      if negb (received_crc16 =? calculated_crc16) then Ret None else
      Ret (Some {| ctrl := ctrl; data_len := data_len; seq := seq;
                   cmd_id := cmd_id; data := data;
                   crc16 := received_crc16 |})
  end.

(** [Commands] *)
Definition HEARTBEAT : Z := 0x00.
Definition GIMBAL_ROTATION : Z := 0x07.
Definition CENTER : Z := 0x08.

End Protocol.

Import Protocol.

(* ------------------------------------------------------------------ *)
(** ** siyi_connection.py                                               *)
(* ------------------------------------------------------------------ *)

Module Connection.

(** The TCP socket as the program sees it: the byte strings handed to
    [sendall], oldest first, and whether the link is broken (then
    [sendall] raises [OSError]). *)
Record Socket : Type := { sent : list (list byte); broken : bool }.

Definition sendall (s : Socket) (packet : list byte) : Socket * pyres unit :=
  if broken s then (s, Raise OSError)
  else ({| sent := sent s ++ [packet]; broken := broken s |}, Ret tt).

Record SIYIConnection : Type := {
  protocol : SIYIProtocol;
  socket : option Socket;
  connected : bool
}.

(** [SIYIConnection.__init__] *)
Definition init : SIYIConnection :=
  {| protocol := Protocol.init; socket := None; connected := false |}.

Definition with_link (self : SIYIConnection) (p : SIYIProtocol) (s : Socket)
    : SIYIConnection :=
  {| protocol := p; socket := Some s; connected := connected self |}.

(** [send_packet]: the [try] block catches every exception of
    [build_packet] and [sendall] and turns it into [False]. *)
Definition send_packet (self : SIYIConnection) (cmd_id : Z)
    (data : list byte) (need_ack : bool) : SIYIConnection * bool :=
  match socket self with
  | None => (self, false)
  | Some sock =>
      if negb (connected self) then (self, false) else
      let '(proto, built) := build_packet (protocol self) cmd_id data need_ack in
      match built with
      | Raise _ => (with_link self proto sock, false)
      | Ret packet =>
          let '(sock, r) := sendall sock packet in
          match r with
          | Raise _ => (with_link self proto sock, false)
          | Ret _ => (with_link self proto sock, true)
          end
      end
  end.

(** [_heartbeat_loop]: the body of one turn. *)
Definition heartbeat_once (self : SIYIConnection) : SIYIConnection * bool :=
  send_packet self HEARTBEAT [x00] false.

End Connection.

(* ------------------------------------------------------------------ *)
(** ** siyi_gimbal.py and the facade of siyi_sdk/__init__.py            *)
(* ------------------------------------------------------------------ *)

Module Sdk.
Import Connection.

(** [SIYIGimbal.center] on the connection the gimbal module shares
    with the facade. *)
Definition gimbal_center (c : SIYIConnection) : SIYIConnection * bool :=
  send_packet c CENTER [x01] false.

(** [SIYIGimbal.rotate]: [struct.pack] sits outside any [try]. *)
Definition gimbal_rotate (c : SIYIConnection) (yaw pitch : Z)
    : SIYIConnection * pyres bool :=
  let yaw := Z.max (-100) (Z.min 100 yaw) in
  let pitch := Z.max (-100) (Z.min 100 pitch) in
  match pack_bb yaw pitch with
  | Raise e => (c, Raise e)
  | Ret data =>
      let '(c, result) := send_packet c GIMBAL_ROTATION data false in
      (c, Ret result)
  end.

Record SIYISDK : Type := { connection : SIYIConnection; _connected : bool }.

Definition init : SIYISDK :=
  {| connection := Connection.init; _connected := false |}.

Definition with_connection (self : SIYISDK) (c : SIYIConnection) : SIYISDK :=
  {| connection := c; _connected := _connected self |}.

Definition center_gimbal (self : SIYISDK) : SIYISDK * bool :=
  let '(c, r) := gimbal_center (connection self) in (with_connection self c, r).

Definition rotate_gimbal (self : SIYISDK) (yaw pitch : Z)
    : SIYISDK * pyres bool :=
  let '(c, r) := gimbal_rotate (connection self) yaw pitch in
  (with_connection self c, r).

(** Everything handed to the device so far. *)
Definition device_log (self : SIYISDK) : list (list byte) :=
  match socket (connection self) with
  | Some s => sent s
  | None => []
  end.

End Sdk.

(* ------------------------------------------------------------------ *)
(** ** utils/pid.py                                                     *)
(* ------------------------------------------------------------------ *)

Module Pid.
Local Open Scope Q_scope.

Definition Qltb (a b : Q) : bool := negb (Qle_bool b a).

(** Python's two-argument [min] and [max] return the first argument
    unless the second is strictly smaller (larger). *)
Definition py_min (a b : Q) : Q := if Qltb b a then b else a.
Definition py_max (a b : Q) : Q := if Qltb a b then b else a.

Record PIDController : Type := {
  kp : Q; ki : Q; kd : Q;
  min_out : Q; max_out : Q;
  prev_error : Q;
  integral : Q;
  last_time : option Q
}.

(** [PIDController.__init__] *)
Definition init (kp ki kd : Q) (output_limits : Q * Q) : PIDController :=
  {| kp := kp; ki := ki; kd := kd;
     min_out := fst output_limits; max_out := snd output_limits;
     prev_error := 0; integral := 0; last_time := None |}.

Definition default_limits : Q * Q := (-(100), 100).

(** The local variables of one [update] call. *)
Record Terms : Type := {
  dt : Q; p_term : Q; i_term : Q; d_term : Q; output : Q
}.

(** [update] up to the [return]: the new object and the locals. *)
Definition update_terms (self : PIDController) (error current_time : Q)
    : PIDController * Terms :=
  let dt := match last_time self with
            | None => 0
            | Some t => current_time - t
            end in
  let p_term := kp self * error in
  let integral := integral self + error * dt in
  let i_term := ki self * integral in
  let d_term := if Qltb 0 dt
                then kd self * (error - prev_error self) / dt
                else 0 in
  let output := p_term + i_term + d_term in
  ({| kp := kp self; ki := ki self; kd := kd self;
      min_out := min_out self; max_out := max_out self;
      prev_error := error; integral := integral;
      last_time := Some current_time |},
   {| dt := dt; p_term := p_term; i_term := i_term; d_term := d_term;
      output := output |}).

Definition update (self : PIDController) (error current_time : Q)
    : PIDController * Q :=
  let '(self', t) := update_terms self error current_time in
  (self', py_max (py_min (output t) (max_out self)) (min_out self)).

Definition reset (self : PIDController) : PIDController :=
  {| kp := kp self; ki := ki self; kd := kd self;
     min_out := min_out self; max_out := max_out self;
     prev_error := 0; integral := 0; last_time := None |}.

End Pid.

(* ------------------------------------------------------------------ *)
(** ** hardware/gimbal.py                                               *)
(* ------------------------------------------------------------------ *)

Module Gimbal.
Import Sdk Pid.
Local Open Scope Q_scope.

Record GimbalController : Type := {
  sdk : SIYISDK;
  pid_yaw : PIDController;
  pid_pitch : PIDController;
  deadzone : Q;
  move_interval : Q;
  last_move_time : Q;
  connected : bool
}.

(** [GimbalController.__init__] with the gains read from the configuration. *)
Definition init (yaw_gains pitch_gains : Q * Q * Q) (deadzone move_interval : Q)
    : GimbalController :=
  let '(ykp, yki, ykd) := yaw_gains in
  let '(pkp, pki, pkd) := pitch_gains in
  {| sdk := Sdk.init;
     pid_yaw := Pid.init ykp yki ykd default_limits;
     pid_pitch := Pid.init pkp pki pkd default_limits;
     deadzone := deadzone; move_interval := move_interval;
     last_move_time := 0; connected := false |}.

Definition set_sdk (self : GimbalController) (s : SIYISDK) : GimbalController :=
  {| sdk := s; pid_yaw := pid_yaw self; pid_pitch := pid_pitch self;
     deadzone := deadzone self; move_interval := move_interval self;
     last_move_time := last_move_time self; connected := connected self |}.

Definition set_pid_yaw (self : GimbalController) (p : PIDController) :=
  {| sdk := sdk self; pid_yaw := p; pid_pitch := pid_pitch self;
     deadzone := deadzone self; move_interval := move_interval self;
     last_move_time := last_move_time self; connected := connected self |}.

Definition set_pid_pitch (self : GimbalController) (p : PIDController) :=
  {| sdk := sdk self; pid_yaw := pid_yaw self; pid_pitch := p;
     deadzone := deadzone self; move_interval := move_interval self;
     last_move_time := last_move_time self; connected := connected self |}.

Definition set_last_move_time (self : GimbalController) (t : Q) :=
  {| sdk := sdk self; pid_yaw := pid_yaw self; pid_pitch := pid_pitch self;
     deadzone := deadzone self; move_interval := move_interval self;
     last_move_time := t; connected := connected self |}.

(** [int(x)] on a float: truncation towards zero. *)
Definition py_int (q : Q) : Z := Z.quot (Qnum q) (Zpos (Qden q)).

(** The three [time.time()] readings of one [update_tracking] call, in
    the order the code takes them. *)
Record Clock : Type := { t_yaw : Q; t_pitch : Q; t_now : Q }.

Definition center (self : GimbalController) : GimbalController * pyres unit :=
  if negb (connected self) then (self, Ret tt) else
  let '(s, _) := center_gimbal (sdk self) in
  let self := set_sdk self s in
  let self := set_pid_yaw self (reset (pid_yaw self)) in
  let self := set_pid_pitch self (reset (pid_pitch self)) in
  (self, Ret tt).

Definition stop (self : GimbalController) : GimbalController * pyres unit :=
  if negb (connected self) then (self, Ret tt) else
  let '(s, r) := rotate_gimbal (sdk self) 0 0 in
  (set_sdk self s, _ <- r ;; Ret tt).

(** [move_gimbal] returns [False] when not connected, else what the
    facade returns. *)
Definition move_gimbal (self : GimbalController) (yaw_speed pitch_speed : Z)
    : GimbalController * pyres bool :=
  if negb (connected self) then (self, Ret false) else
  let '(s, r) := rotate_gimbal (sdk self) yaw_speed pitch_speed in
  (set_sdk self s, r).

(** [update_tracking]: [None] is the bare [return] of the guard. *)
Definition update_tracking (self : GimbalController) (error_x error_y : Q)
    (clk : Clock) : GimbalController * pyres (option (Z * Z)) :=
  if negb (connected self) then (self, Ret None) else
  (* Yaw control *)
  let '(self, yaw_speed) :=
    if Qltb (deadzone self) (Qabs error_x)
    then let '(p, out) := update (pid_yaw self) error_x (t_yaw clk) in
         (set_pid_yaw self p, py_int out)
    else (set_pid_yaw self (reset (pid_yaw self)), 0%Z) in
  (* Pitch control *)
  let '(self, pitch_speed) :=
    if Qltb (deadzone self) (Qabs error_y)
    then let '(p, out) := update (pid_pitch self) (- error_y) (t_pitch clk) in
         (set_pid_pitch self p, py_int out)
    else (set_pid_pitch self (reset (pid_pitch self)), 0%Z) in
  (* Send command periodically *)
  let now := t_now clk in
  if Qltb (move_interval self) (now - last_move_time self) then
    let '(self, r) :=
      if negb (yaw_speed =? 0)%Z || negb (pitch_speed =? 0)%Z
      then let '(s, r) := rotate_gimbal (sdk self) yaw_speed pitch_speed in
           (set_sdk self s, _ <- r ;; Ret tt)
      else stop self in
    match r with
    | Raise e => (self, Raise e)
    | Ret _ => (set_last_move_time self now, Ret (Some (yaw_speed, pitch_speed)))
    end
  else (self, Ret (Some (yaw_speed, pitch_speed))).

End Gimbal.

(* ------------------------------------------------------------------ *)
(** ** Floating-point numbers                                           *)
(* ------------------------------------------------------------------ *)

(** Python's [float] and NumPy's [float64] are IEEE 754 binary64 numbers,
    and their [+], [-], [/] and comparisons are the correctly rounded
    operations of the standard: those of the library's [SpecFloat] at
    precision 53.  An [int] among floats stands for the float it converts
    to. *)
Module Float.

Definition float : Type := spec_float.

Definition prec : Z := 53.
Definition emax : Z := 1024.

Definition add : float -> float -> float := SFadd prec emax.
Definition sub : float -> float -> float := SFsub prec emax.
Definition mul : float -> float -> float := SFmul prec emax.
Definition div : float -> float -> float := SFdiv prec emax.
Definition sqrt : float -> float := SFsqrt prec emax.

Definition eqb : float -> float -> bool := SFeqb.
Definition ltb : float -> float -> bool := SFltb.
Definition leb : float -> float -> bool := SFleb.

(** [float(z)] for an integer [z], rounded to the nearest float. *)
Definition of_Z (z : Z) : float := binary_normalize prec emax z 0 false.

(** The float nearest to [m * 2 ** e]. *)
Definition of_bits (m e : Z) : float := binary_normalize prec emax m e false.

(** [float('inf')], [float('nan')] and the literal [0.5]. *)
Definition inf : float := S754_infinity false.
Definition nan : float := S754_nan.
Definition half : float := of_bits 1 (-1).

End Float.

(* ------------------------------------------------------------------ *)
(** ** detection/tracker.py                                             *)
(* ------------------------------------------------------------------ *)

Module Tracker.
Import Float.

Definition Box : Type := (float * float * float * float)%type.

(** One element of [detector.detect(frame)]: [(label, score, (x, y, w, h))]. *)
Record Detection : Type := { label : string; score : float; bbox : Box }.

(** What the code reads of a track returned by [BYTETracker.update]. *)
Record STrack : Type := { track_id : Z; tlwh : Box }.

(** The collaborators of [ObjectTracker] that live outside this
    repository's sources: the frame type, the detector, the
    [bytetracker] package, the OpenCV single-object trackers, and the
    power operator [**] on floats, which Python and NumPy hand to the C
    library's [pow] and whose rounding IEEE 754 does not fix.  The tracks
    of [bytetracker] hold NumPy numbers, on which [**] never raises. *)
Record Collaborators : Type := {
  Frame : Type;
  detect : Frame -> list Detection;
  Byte_state : Type;
  BYTETracker : Byte_state;
  byte_update : Byte_state -> list (float * float * float * float * float)
                -> Byte_state * list STrack;
  Cv_state : Type;
  TrackerCSRT_create : Cv_state;
  TrackerKCF_create : Cv_state;
  TrackerMOSSE_create : Cv_state;
  cv_init : Cv_state -> Frame -> Box -> Cv_state;
  float_pow : float -> float -> float
}.

(** What [print] writes during [init]. *)
Inductive Message : Type :=
| LockedOnID (id : Z)
| CouldNotMatch
| RequiresDetector
| Initialized (tracker_type : string).

Section ObjectTracker.
Variable C : Collaborators.

Inductive Handle : Type :=
| Cv (t : Cv_state C)
| Byte (t : Byte_state C).

Record ObjectTracker : Type := {
  tracker_type : string;
  tracker : option Handle;
  tracking_active : bool;
  has_detector : bool;
  tracked_id : option Z
}.

(** [ObjectTracker.__init__] *)
Definition new (tracker_type : string) (has_detector : bool) : ObjectTracker :=
  {| tracker_type := tracker_type; tracker := None;
     tracking_active := false; has_detector := has_detector;
     tracked_id := None |}.

Definition _create_tracker (self : ObjectTracker) : Handle :=
  if String.eqb (tracker_type self) "CSRT" then Cv (TrackerCSRT_create C)
  else if String.eqb (tracker_type self) "KCF" then Cv (TrackerKCF_create C)
  else if String.eqb (tracker_type self) "MOSSE" then Cv (TrackerMOSSE_create C)
  else if String.eqb (tracker_type self) "BYTE" then Byte (BYTETracker C)
  else Cv (TrackerCSRT_create C).

(** [formatted_dets.append([dx, dy, dx+dw, dy+dh, score])] *)
Definition format_det (d : Detection) : float * float * float * float * float :=
  let '(dx, dy, dw, dh) := bbox d in (dx, dy, add dx dw, add dy dh, score d).

(** Centre of an [(x, y, w, h)] box. *)
Definition centre (b : Box) : float * float :=
  let '(x, y, w, h) := b in (add x (div w (of_Z 2)), add y (div h (of_Z 2))).

(** [((tcx - mx)**2 + (tcy - my)**2)**0.5] *)
Definition dist_to (m : float * float) (t : STrack) : float :=
  let '(mx, my) := m in
  let '(tcx, tcy) := centre (tlwh t) in
  float_pow C
    (add (float_pow C (sub tcx mx) (of_Z 2)) (float_pow C (sub tcy my) (of_Z 2)))
    half.

(** Body of [for t in online_targets] on the pair [(min_dist, best_id)]. *)
Definition select_step (m : float * float) (acc : float * option Z) (t : STrack)
    : float * option Z :=
  let '(min_dist, best_id) := acc in
  let dist := dist_to m t in
  if ltb dist min_dist then (dist, Some (track_id t)) else (min_dist, best_id).

(** [self.tracker.update(dets_np)] in the BYTE branch, where
    [_create_tracker] has just returned a [BYTETracker]. *)
Definition handle_update (h : Handle)
    (dets : list (float * float * float * float * float))
    : Handle * list STrack :=
  match h with
  | Byte t => let '(t, out) := byte_update C t dets in (Byte t, out)
  | Cv t => (Cv t, [])
  end.

Definition set_tracker (self : ObjectTracker) (h : Handle) : ObjectTracker :=
  {| tracker_type := tracker_type self; tracker := Some h;
     tracking_active := tracking_active self;
     has_detector := has_detector self; tracked_id := tracked_id self |}.

Definition set_tracking_active (self : ObjectTracker) (b : bool) : ObjectTracker :=
  {| tracker_type := tracker_type self; tracker := tracker self;
     tracking_active := b;
     has_detector := has_detector self; tracked_id := tracked_id self |}.

Definition set_tracked_id (self : ObjectTracker) (id : Z) : ObjectTracker :=
  {| tracker_type := tracker_type self; tracker := tracker self;
     tracking_active := tracking_active self;
     has_detector := has_detector self; tracked_id := Some id |}.

(** [init]: the new object and what was printed, oldest first. *)
Definition init (self : ObjectTracker) (frame : Frame C) (box : Box)
    : ObjectTracker * list Message :=
  let h := _create_tracker self in
  let self := set_tracker self h in
  let self := set_tracking_active self true in
  let '(self, out) :=
    if String.eqb (tracker_type self) "BYTE" then
      if has_detector self then
        let detections := detect C frame in
        let m := centre box in
        let best_id : option Z := None in
        let min_dist := inf in
        let formatted_dets := map format_det detections in
        match formatted_dets with
        | [] => (self, [])
        | _ :: _ =>
            let '(h, online_targets) := handle_update h formatted_dets in
            let self := set_tracker self h in
            let '(min_dist, best_id) :=
              fold_left (select_step m) online_targets (min_dist, best_id) in
            match best_id with
            | Some id =>
                if ltb min_dist (of_Z 100)
                then (set_tracked_id self id, [LockedOnID id])
                else (set_tracking_active self false, [CouldNotMatch])
            | None => (set_tracking_active self false, [CouldNotMatch])
            end
        end
      else (set_tracking_active self false, [RequiresDetector])
    else
      match h with
      | Cv t => (set_tracker self (Cv (cv_init C t frame box)), [])
      | Byte t => (self, [])
      end in
  (self, out ++ [Initialized (tracker_type self)]).

Definition stop (self : ObjectTracker) : ObjectTracker :=
  {| tracker_type := tracker_type self; tracker := None;
     tracking_active := false;
     has_detector := has_detector self; tracked_id := None |}.

End ObjectTracker.

Arguments tracker_type {C} _.
Arguments tracker {C} _.
Arguments tracking_active {C} _.
Arguments has_detector {C} _.
Arguments tracked_id {C} _.

End Tracker.

(* ------------------------------------------------------------------ *)
(** ** Vocabulary of the statements                                     *)
(* ------------------------------------------------------------------ *)

Module Vocabulary.

(** Values of an unsigned 16-bit field. *)
Definition word16 (c : Z) : Prop := 0 <= c < 65536.

(** Candidate inverse of [crc_shift]: the low bit of the result tells
    whether the polynomial was folded in. *)
Definition crc_unshift (c : Z) : Z :=
  if Z.odd c
  then Z.lor (Z.shiftr (Z.lxor c 0x1021) 1) 0x8000
  else Z.shiftr c 1.

(** [P] holds on [c, c+1, ..., c+n-1]. *)
Fixpoint all_from (P : Z -> bool) (c : Z) (n : nat) : bool :=
  match n with
  | O => true
  | S n => P c && all_from P (c + 1) n
  end.

(** A session object the program can hold: its counter is a 16-bit value
    ([__init__] sets 0, [_get_next_sequence] reduces modulo 65536). *)
Definition session_ok (self : SIYIProtocol) : Prop := word16 (sequence self).

(** The eight bytes [struct.pack('<HBHHB', STX, ctrl, data_len, seq, cmd_id)]
    lays out. *)
Definition header_bytes (ctrl data_len seq cmd_id : Z) : list byte :=
  [x55; x66; Z_to_byte ctrl;
   Z_to_byte (data_len mod 256); Z_to_byte (data_len / 256);
   Z_to_byte (seq mod 256); Z_to_byte (seq / 256);
   Z_to_byte cmd_id].

Definition ctrl_of (need_ack : bool) : Z :=
  if need_ack then CTRL_NEED_ACK else CTRL_ACK_PACK.

(** A payload of 65536 zero bytes. *)
Definition long_payload : list byte := repeat x00 (Z.to_nat 65536).

(** The arguments of one [build_packet] call. *)
Record Call : Type := { call_cmd : Z; call_data : list byte; call_ack : bool }.

Definition call_fits (c : Call) : Prop :=
  0 <= call_cmd c <= 255 /\ len (call_data c) <= 65535.

(** Consecutive [build_packet] calls on one session object: the object
    after the last call and the outcome of every call, in order. *)
Fixpoint build_all (self : SIYIProtocol) (calls : list Call)
    : SIYIProtocol * list (pyres (list byte)) :=
  match calls with
  | [] => (self, [])
  | c :: calls =>
      let '(self, r) :=
        build_packet self (call_cmd c) (call_data c) (call_ack c) in
      let '(self, rs) := build_all self calls in
      (self, r :: rs)
  end.

(** Field accessors on raw bytes, by offset in the wire format. *)
Definition byte_at (p : list byte) (i : nat) : Z := byte_to_Z (nth i p x00).
Definition u16_at (p : list byte) (i : nat) : Z :=
  byte_at p i + 256 * byte_at p (S i).

Definition stx_field (p : list byte) : Z := u16_at p 0.
Definition ctrl_field (p : list byte) : Z := byte_at p 2.
Definition data_len_field (p : list byte) : Z := u16_at p 3.
Definition seq_field (p : list byte) : Z := u16_at p 5.
Definition cmd_id_field (p : list byte) : Z := byte_at p 7.
Definition payload_field (p : list byte) : list byte :=
  firstn (Z.to_nat (data_len_field p)) (skipn 8 p).
Definition checksum_field (p : list byte) : Z :=
  u16_at p (8 + Z.to_nat (data_len_field p)).

(** The bytes the trailing checksum covers: header and payload. *)
Definition covered (p : list byte) : list byte :=
  firstn (8 + Z.to_nat (data_len_field p)) p.

(** The four ways in which a byte string is not a packet. *)
Definition too_short (p : list byte) : Prop := len p < 10.
Definition bad_marker (p : list byte) : Prop := stx_field p <> 0x6655.
Definition truncated (p : list byte) : Prop := len p < 8 + data_len_field p + 2.
Definition bad_checksum (p : list byte) : Prop :=
  checksum_field p <> _calculate_crc16 (covered p).

Definition malformed (p : list byte) : Prop :=
  too_short p \/ bad_marker p \/ truncated p \/ bad_checksum p.

(** The two bytes found where [p] declares its checksum are the checksum
    of the bytes [p] declares covered. *)
Definition checksum_verifies (p : list byte) : Prop :=
  checksum_field p = _calculate_crc16 (covered p).

Definition fields (p : list byte) : Parsed :=
  {| ctrl := ctrl_field p; data_len := data_len_field p;
     seq := seq_field p; cmd_id := cmd_id_field p;
     data := payload_field p; crc16 := checksum_field p |}.

(** Flipping bit [k] (0 the least significant) of a byte, of the byte at
    index [i] of a byte string, and bit number [n] of a byte string
    (bit [n] is bit [n mod 8] of byte [n / 8]). *)
Definition flip_byte (b : byte) (k : nat) : byte :=
  Z_to_byte (Z.lxor (byte_to_Z b) (2 ^ Z.of_nat k)).

Fixpoint flip_at (p : list byte) (i k : nat) : list byte :=
  match p, i with
  | [], _ => []
  | b :: p, O => flip_byte b k :: p
  | b :: p, S i => b :: flip_at p i k
  end.

Definition flip_bit (p : list byte) (n : nat) : list byte :=
  flip_at p (n / 8) (n mod 8).

Definition bit_set (p : list byte) (n : nat) : bool :=
  Z.testbit (byte_at p (n / 8)) (Z.of_nat (n mod 8)).

(** Bit [n] lies in the payload-length field (bytes 3 and 4). *)
Definition in_length_field (n : nat) : Prop :=
  (n / 8 = 3)%nat \/ (n / 8 = 4)%nat.

(** A packet with nothing after its checksum. *)
Definition exact_packet (p : list byte) : Prop :=
  ~ malformed p /\ len p = 8 + data_len_field p + 2.

(** [x] clamped to the range from [lo] to [hi], with the library's
    minimum and maximum. *)
Definition clamped (lo hi x : Q) : Q := Qmax (Qmin x hi) lo.

(** What C6 says of an [update(e)] call made at time [t] on the
    controller [s]: the time step and the derivative term are 0, the
    accumulator keeps its value, and the result is
    [Kp*e + Ki*integral] clamped to the output range. *)
Definition first_update_ok (s : Pid.PIDController) (e t : Q) : Prop :=
  Pid.dt (snd (Pid.update_terms s e t)) = 0%Q /\
  Pid.d_term (snd (Pid.update_terms s e t)) = 0%Q /\
  (Pid.integral (fst (Pid.update s e t)) == Pid.integral s)%Q /\
  (snd (Pid.update s e t)
   == clamped (Pid.min_out s) (Pid.max_out s)
        (Pid.kp s * e + Pid.ki s * Pid.integral s))%Q.

(** One [update_tracking] call: the pixel errors and the clock readings. *)
Record Cycle : Type := {
  error_x : Q; error_y : Q; clock : Gimbal.Clock
}.

(** Consecutive [update_tracking] calls on one controller: the
    controller after the last call. *)
Definition track_all (g : Gimbal.GimbalController) (cycles : list Cycle)
    : Gimbal.GimbalController :=
  fold_left
    (fun g c => fst (Gimbal.update_tracking g (error_x c) (error_y c) (clock c)))
    cycles g.

(** A controller whose session was closed by [disconnect()] after some
    tracking: seven packets went out, the yaw accumulator holds 5. *)
Definition offline_controller : Gimbal.GimbalController :=
  {| Gimbal.sdk :=
       {| Sdk.connection :=
            {| Connection.protocol := {| sequence := 7 |};
               Connection.socket := None;
               Connection.connected := false |};
          Sdk._connected := false |};
     Gimbal.pid_yaw :=
       {| Pid.kp := 1 # 2; Pid.ki := 1 # 10; Pid.kd := 0;
          Pid.min_out := -(100); Pid.max_out := 100;
          Pid.prev_error := 30; Pid.integral := 5;
          Pid.last_time := Some 12%Q |};
     Gimbal.pid_pitch := Pid.init (1 # 2) (1 # 10) 0 Pid.default_limits;
     Gimbal.deadzone := 20; Gimbal.move_interval := 1 # 20;
     Gimbal.last_move_time := 12; Gimbal.connected := false |}.

Definition noon : Gimbal.Clock :=
  {| Gimbal.t_yaw := 13; Gimbal.t_pitch := 13; Gimbal.t_now := 13 |}.

(** A controller right after a successful [connect()]. *)
Definition online_controller : Gimbal.GimbalController :=
  {| Gimbal.sdk :=
       {| Sdk.connection :=
            {| Connection.protocol := Protocol.init;
               Connection.socket :=
                 Some {| Connection.sent := []; Connection.broken := false |};
               Connection.connected := true |};
          Sdk._connected := true |};
     Gimbal.pid_yaw := Pid.init (1 # 2) (1 # 10) 0 Pid.default_limits;
     Gimbal.pid_pitch := Pid.init (1 # 2) (1 # 10) 0 Pid.default_limits;
     Gimbal.deadzone := 20; Gimbal.move_interval := 1 # 20;
     Gimbal.last_move_time := 0; Gimbal.connected := true |}.

(** The distance [init] computes between the centre of the requested box
    and the centre of a track: a float, rounded at every operation.  The
    acceptance radius is the float 100. *)
Definition distance (C : Tracker.Collaborators) (box : Tracker.Box)
    (t : Tracker.STrack) : Float.float :=
  Tracker.dist_to C (Tracker.centre box) t.

Definition radius : Float.float := Float.of_Z 100.

(** What the selection loop of [init] holds after the tracks [seen]: no
    track seen is nearer than [min_dist], and [best_id] is the first track
    seen at that distance, if any distance was below infinity. *)
Definition selected (C : Tracker.Collaborators) (box : Tracker.Box)
    (seen : list Tracker.STrack) (acc : Float.float * option Z) : Prop :=
  (forall t, In t seen -> Float.ltb (distance C box t) (fst acc) = false) /\
  (acc = (Float.inf, None) \/
   exists pre t post,
     seen = pre ++ t :: post /\
     acc = (distance C box t, Some (Tracker.track_id t)) /\
     Float.ltb (distance C box t) Float.inf = true /\
     forall t', In t' pre ->
       Float.leb (distance C box t') (distance C box t) = false).

(** A [pow] that rounds correctly at the two exponents the program uses,
    2 and 0.5. *)
Definition rounded_pow (x y : Float.float) : Float.float :=
  if Float.eqb y (Float.of_Z 2) then Float.mul x x
  else if Float.eqb y Float.half then Float.sqrt x
  else Float.nan.

(** A stand-in for the collaborators: a frame is the list of objects
    visible in it, the detector reports them all, and the identity
    tracker turns every detection it is given first into a track of the
    same box, numbered from 1 on. *)
Definition number_tracks
    (dets : list (Float.float * Float.float * Float.float * Float.float * Float.float))
    : list Tracker.STrack :=
  map (fun '(id, (x1, y1, x2, y2, _)) =>
         {| Tracker.track_id := Z.of_nat id;
            Tracker.tlwh := (x1, y1, Float.sub x2 x1, Float.sub y2 y1) |})
      (combine (List.seq 1%nat (List.length dets)) dets).

Definition echo : Tracker.Collaborators :=
  {| Tracker.Frame := list Tracker.Detection;
     Tracker.detect := fun frame => frame;
     Tracker.Byte_state := unit;
     Tracker.BYTETracker := tt;
     Tracker.byte_update := fun st dets => (st, number_tracks dets);
     Tracker.Cv_state := unit;
     Tracker.TrackerCSRT_create := tt;
     Tracker.TrackerKCF_create := tt;
     Tracker.TrackerMOSSE_create := tt;
     Tracker.cv_init := fun st _ _ => st;
     Tracker.float_pow := rounded_pow |}.

(** A 20 x 20 detection centred on the pixel [(x, y)]. *)
Definition person_at (x y : Z) : Tracker.Detection :=
  {| Tracker.label := "person";
     Tracker.score := Float.div (Float.of_Z 9) (Float.of_Z 10);
     Tracker.bbox := (Float.of_Z (x - 10), Float.of_Z (y - 10),
                      Float.of_Z 20, Float.of_Z 20) |}.

Definition byte_tracker : Tracker.ObjectTracker echo :=
  Tracker.new echo "BYTE" true.

(** Three people at 60, 5 and 150 px from the origin, and a 20 x 20 box
    centred on the origin. *)
Definition crowd : list Tracker.Detection :=
  [person_at 60 0; person_at 3 4; person_at 0 150].

Definition origin_box : Tracker.Box :=
  (Float.of_Z (-10), Float.of_Z (-10), Float.of_Z 20, Float.of_Z 20).

(** No session: the connection is flagged closed or holds no socket. *)
Definition link_down (c : Connection.SIYIConnection) : Prop :=
  Connection.connected c = false \/ Connection.socket c = None.

(** The call returned a value: no exception left it. *)
Definition returns {A} (r : pyres A) : Prop := exists a, r = Ret a.

End Vocabulary.
Import Vocabulary.

(* ------------------------------------------------------------------ *)
(** ** Vocabulary of the further properties                             *)
(* ------------------------------------------------------------------ *)

Module Further.

(** Everything a connection has handed to its socket, oldest first. *)
Definition log (c : Connection.SIYIConnection) : list (list byte) :=
  match Connection.socket c with
  | Some s => Connection.sent s
  | None => []
  end.

(** An open session on a working socket, with a counter the program can
    hold. *)
Definition healthy (c : Connection.SIYIConnection) : Prop :=
  Connection.connected c = true /\
  session_ok (Connection.protocol c) /\
  exists s, Connection.socket c = Some s /\ Connection.broken s = false.

(** Consecutive [send_packet] calls on one connection: the connection
    after the last call. *)
Definition send_all (c : Connection.SIYIConnection) (calls : list Call)
    : Connection.SIYIConnection :=
  fold_left
    (fun c k => fst (Connection.send_packet c (call_cmd k) (call_data k) (call_ack k)))
    calls c.

(** [struct.unpack('b', bytes([b]))[0]]: a byte read as a signed value. *)
Definition signed_byte (b : byte) : Z :=
  if byte_to_Z b <? 128 then byte_to_Z b else byte_to_Z b - 256.

(** A speed limited to the range the device accepts. *)
Definition clamp100 (v : Z) : Z := Z.max (-100) (Z.min 100 v).

End Further.
Import Further.

(* ------------------------------------------------------------------ *)
(** ** Vocabulary of the further properties: control                    *)
(* ------------------------------------------------------------------ *)

Module FurtherControl.

(** Consecutive [update(e)] calls with one error value, at the given
    clock readings: the controller after the last call. *)
Definition update_all (s : Pid.PIDController) (e : Q) (times : list Q)
    : Pid.PIDController :=
  fold_left (fun s t => fst (Pid.update s e t)) times s.

End FurtherControl.
Import FurtherControl.

(* ------------------------------------------------------------------ *)
(** ** detection/tracker.py: [update]                                   *)
(* ------------------------------------------------------------------ *)

Module TrackerUpdate.
Import Tracker.

Section Update.
Variable C : Collaborators.

(** [tracker.update(frame)] of an OpenCV tracker: its new state, the
    success flag and the box. *)
Variable cv_update : Cv_state C -> Frame C -> Cv_state C * (bool * Box).

(** How an [update] call ends: it returns [(success, bbox)] and leaves the
    object [self], or the method called on [self.tracker] belongs to the
    other kind of tracker and the call raises. *)
Inductive Outcome : Type :=
| Returned (self : ObjectTracker C) (success : bool) (bbox : option Box)
| Raised (self : ObjectTracker C).

(** [t.track_id == self.tracked_id]; an id never equals [None]. *)
Definition is_locked (tracked_id : option Z) (t : STrack) : bool :=
  match tracked_id with
  | Some id => (track_id t =? id)%Z
  | None => false
  end.

Definition update (self : ObjectTracker C) (frame : Frame C) : Outcome :=
  let detections :=
    if String.eqb (tracker_type self) "BYTE" && has_detector self
       && tracking_active self
    then Some (detect C frame)
    else None in
  match tracking_active self, tracker self with
  | true, Some h =>
      if String.eqb (tracker_type self) "BYTE" then
        match detections with
        | None | Some [] => Returned self false None
        | Some (d :: ds) =>
            let formatted_dets := map format_det (d :: ds) in
            match h with
            | Byte _ t =>
                let '(t, online_targets) := byte_update C t formatted_dets in
                let self := set_tracker C self (Byte C t) in
                match find (is_locked (tracked_id self)) online_targets with
                | Some t => Returned self true (Some (tlwh t))
                | None => Returned self false None
                end
            | Cv _ _ => Raised self
            end
        end
      else
        match h with
        | Cv _ t =>
            let '(t, (success, bbox)) := cv_update t frame in
            let self := set_tracker C self (Cv C t) in
            let self := if success then self
                        else set_tracking_active C self false in
            Returned self success (Some bbox)
        | Byte _ _ => Raised self
        end
  | _, _ => Returned self false None
  end.

End Update.

Arguments Returned {C} self success bbox.
Arguments Raised {C} self.

End TrackerUpdate.

(* ------------------------------------------------------------------ *)
(** ** Vocabulary of the further properties: tracking                   *)
(* ------------------------------------------------------------------ *)

Module FurtherTracking.

(** A stand-in for an OpenCV tracker on the frames of [echo]: it follows
    the first object of the frame and fails on an empty frame. *)
Definition echo_cv_update (st : unit) (frame : list Tracker.Detection)
    : unit * (bool * Tracker.Box) :=
  match frame with
  | [] => (st, (false, (Float.of_Z 0, Float.of_Z 0, Float.of_Z 0, Float.of_Z 0)))
  | d :: _ => (st, (true, Tracker.bbox d))
  end.

(** The [echo] tracker of type [ty] after [init] on the crowd. *)
Definition started (ty : string) : Tracker.ObjectTracker echo :=
  fst (Tracker.init echo (Tracker.new echo ty true) crowd origin_box).

End FurtherTracking.
Import FurtherTracking.

(* ------------------------------------------------------------------ *)
(** ** siyi_connection.py: [receive_packet]                             *)
(* ------------------------------------------------------------------ *)

Module Receive.
Import Connection.

(** How [self.socket.recv(1024)] ends: the timeout expires, another
    exception is raised, or bytes arrive (none when the peer has closed). *)
Inductive Recv : Type :=
| RecvTimeout
| RecvError
| RecvData (data : list byte).

(** [receive_packet]: [None] is Python's [None]; every exception is caught
    and a call that falls off the end of the function returns [None]. *)
Definition receive_packet (self : SIYIConnection) (incoming : Recv)
    : option Parsed :=
  match socket self with
  | None => None
  | Some _ =>
      if negb (connected self) then None else
      match incoming with
      | RecvTimeout => None
      | RecvError => None
      | RecvData [] => None
      | RecvData data =>
          match parse_packet data with
          | Ret parsed => parsed
          | Raise _ => None
          end
      end
  end.

End Receive.

(* ================================================================== *)
(** * Properties                                                        *)
(* ================================================================== *)

(* ------------------------------------------------------------------ *)
(** ** Bytes and the [struct] codecs                                    *)
(* ------------------------------------------------------------------ *)

Section BytesFacts.

Lemma byte_to_Z_range (b : byte) : 0 <= byte_to_Z b < 256.
Proof.
  unfold byte_to_Z. pose proof (Byte.to_N_bounded b). lia.
Qed.

Lemma Z_to_byte_to_Z (b : byte) : Z_to_byte (byte_to_Z b) = b.
Proof.
  unfold Z_to_byte, byte_to_Z.
  now rewrite N2Z.id, Byte.of_to_N.
Qed.

Lemma byte_to_Z_to_byte (z : Z) : 0 <= z < 256 -> byte_to_Z (Z_to_byte z) = z.
Proof.
  intros Hz. unfold Z_to_byte, byte_to_Z.
  destruct (Byte.of_N (Z.to_N z)) as [b|] eqn:E.
  - apply Byte.to_of_N in E. rewrite E. lia.
  - apply Byte.of_N_None_iff in E. lia.
Qed.

Lemma byte_to_Z_inj (a b : byte) : byte_to_Z a = byte_to_Z b -> a = b.
Proof.
  intros H. rewrite <- (Z_to_byte_to_Z a), <- (Z_to_byte_to_Z b). now f_equal.
Qed.

Lemma unpack_pack_H (v : Z) (l : list byte) :
  pack_H v = Ret l -> unpack_H l = Ret v /\ List.length l = 2%nat.
Proof.
  unfold pack_H. destruct (_ && _) eqn:E; [|discriminate].
  apply andb_true_iff in E. destruct E as [E1 E2].
  apply Z.leb_le in E1, E2.
  intros [= <-]. split; [|reflexivity]. unfold unpack_H.
  rewrite byte_to_Z_to_byte by (apply Z.mod_pos_bound; lia).
  rewrite byte_to_Z_to_byte
    by (split; [apply Z.div_pos | apply Z.div_lt_upper_bound]; lia).
  f_equal. pose proof (Z.div_mod v 256). lia.
Qed.

Lemma pack_H_ok (v : Z) : 0 <= v < 65536 -> exists l, pack_H v = Ret l.
Proof.
  intros H. unfold pack_H.
  replace (0 <=? v) with true by (symmetry; apply Z.leb_le; lia).
  replace (v <=? 65535) with true by (symmetry; apply Z.leb_le; lia).
  cbn. eauto.
Qed.

Lemma len_app {A} (l1 l2 : list A) : len (l1 ++ l2) = len l1 + len l2.
Proof. unfold len. rewrite length_app. lia. Qed.

Lemma len_nonneg {A} (l : list A) : 0 <= len l.
Proof. unfold len. lia. Qed.

Lemma slice_0 {A} (l : list A) (b : Z) : slice l 0 b = firstn (Z.to_nat b) l.
Proof. unfold slice. now rewrite Z.sub_0_r. Qed.

End BytesFacts.

(* ------------------------------------------------------------------ *)
(** ** The checksum                                                     *)
(* ------------------------------------------------------------------ *)

Section CrcFacts.

Lemma land_ffff_range (x : Z) : word16 (Z.land x 0xFFFF).
Proof.
  change 0xFFFF with (Z.ones 16). rewrite Z.land_ones by lia.
  apply Z.mod_pos_bound. lia.
Qed.

Lemma word16_land (x : Z) : word16 x -> Z.land x 0xFFFF = x.
Proof.
  intros H. change 0xFFFF with (Z.ones 16). rewrite Z.land_ones by lia.
  apply Z.mod_small. exact H.
Qed.

Lemma land_lxor_distr (a b m : Z) :
  Z.land (Z.lxor a b) m = Z.lxor (Z.land a m) (Z.land b m).
Proof.
  apply Z.bits_inj'. intros n _.
  rewrite Z.land_spec, !Z.lxor_spec, !Z.land_spec.
  now destruct (Z.testbit a n), (Z.testbit b n), (Z.testbit m n).
Qed.

Lemma word16_lxor (a b : Z) : word16 a -> word16 b -> word16 (Z.lxor a b).
Proof.
  intros Ha Hb.
  rewrite <- (word16_land a Ha), <- (word16_land b Hb), <- land_lxor_distr.
  apply land_ffff_range.
Qed.

Lemma word16_byte_shift (b : byte) : word16 (Z.shiftl (byte_to_Z b) 8).
Proof.
  pose proof (byte_to_Z_range b). rewrite Z.shiftl_mul_pow2 by lia.
  change (2 ^ 8) with 256. unfold word16. lia.
Qed.

Lemma crc_shift_range (c : Z) : word16 (crc_shift c).
Proof. apply land_ffff_range. Qed.

Lemma iter_crc_shift_range (n : nat) (c : Z) :
  word16 c -> word16 (Nat.iter n crc_shift c).
Proof.
  intros Hc. destruct n; [exact Hc|]. cbn. apply crc_shift_range.
Qed.

Lemma crc_byte_range (c : Z) (b : byte) : word16 c -> word16 (crc_byte c b).
Proof.
  intros Hc. apply iter_crc_shift_range, word16_lxor;
    auto using word16_byte_shift.
Qed.

Lemma fold_crc_range (l : list byte) (c : Z) :
  word16 c -> word16 (fold_left crc_byte l c).
Proof.
  revert c. induction l as [|b l IH]; intros c Hc; cbn [fold_left]; [exact Hc|].
  apply IH, crc_byte_range, Hc.
Qed.

Lemma crc16_range (l : list byte) : word16 (_calculate_crc16 l).
Proof. apply fold_crc_range. unfold word16. lia. Qed.

(** *** One shift step loses no information on 16-bit values *)

Lemma all_from_spec (P : Z -> bool) (n : nat) :
  forall c, all_from P c n = true ->
  forall x, c <= x < c + Z.of_nat n -> P x = true.
Proof.
  induction n as [|n IH]; intros c H x Hx; [lia|].
  cbn [all_from] in H. apply andb_true_iff in H. destruct H as [Hc Hn].
  destruct (Z.eq_dec x c) as [->|Hne]; [exact Hc|].
  apply (IH (c + 1) Hn). lia.
Qed.

Lemma crc_unshift_shift_all :
  all_from (fun c => crc_unshift (crc_shift c) =? c) 0 (Z.to_nat 65536) = true.
Proof. vm_compute. reflexivity. Qed.

Lemma crc_unshift_shift (c : Z) : word16 c -> crc_unshift (crc_shift c) = c.
Proof.
  intros Hc. apply Z.eqb_eq.
  apply (all_from_spec _ _ _ crc_unshift_shift_all c). unfold word16 in Hc. lia.
Qed.

Lemma crc_shift_inj (a b : Z) :
  word16 a -> word16 b -> crc_shift a = crc_shift b -> a = b.
Proof.
  intros Ha Hb H.
  rewrite <- (crc_unshift_shift a Ha), <- (crc_unshift_shift b Hb).
  now f_equal.
Qed.

Lemma iter_crc_shift_inj (n : nat) (a b : Z) :
  word16 a -> word16 b ->
  Nat.iter n crc_shift a = Nat.iter n crc_shift b -> a = b.
Proof.
  intros Ha Hb. induction n as [|n IH]; cbn; [trivial|].
  intros H. apply IH.
  apply crc_shift_inj; auto using iter_crc_shift_range.
Qed.

Lemma lxor_cancel_r (a b x : Z) : Z.lxor a x = Z.lxor b x -> a = b.
Proof.
  intros H.
  rewrite <- (Z.lxor_0_r a), <- (Z.lxor_0_r b), <- (Z.lxor_nilpotent x).
  rewrite <- !Z.lxor_assoc. now f_equal.
Qed.

(** The state after a byte determines the state before it ... *)
Lemma crc_byte_inj_state (a b : Z) (x : byte) :
  word16 a -> word16 b -> crc_byte a x = crc_byte b x -> a = b.
Proof.
  intros Ha Hb H. unfold crc_byte in H.
  apply iter_crc_shift_inj in H;
    auto using word16_lxor, word16_byte_shift.
  now apply lxor_cancel_r in H.
Qed.

(** ... and, from a known state, the byte itself. *)
Lemma crc_byte_inj_byte (c : Z) (x y : byte) :
  word16 c -> crc_byte c x = crc_byte c y -> x = y.
Proof.
  intros Hc H. unfold crc_byte in H.
  apply iter_crc_shift_inj in H;
    auto using word16_lxor, word16_byte_shift.
  rewrite (Z.lxor_comm c), (Z.lxor_comm c) in H.
  apply lxor_cancel_r in H.
  rewrite !Z.shiftl_mul_pow2 in H by lia.
  apply byte_to_Z_inj. lia.
Qed.

Lemma fold_crc_inj_state (l : list byte) (a b : Z) :
  word16 a -> word16 b ->
  fold_left crc_byte l a = fold_left crc_byte l b -> a = b.
Proof.
  revert a b. induction l as [|x l IH]; intros a b Ha Hb H;
    cbn [fold_left] in H; [exact H|].
  apply IH in H; auto using crc_byte_range.
  now apply (crc_byte_inj_state a b x).
Qed.

(** Replacing one byte of a message by a different byte changes its
    checksum, whatever precedes and follows. *)
Lemma crc16_one_byte (pre post : list byte) (x y : byte) :
  x <> y ->
  _calculate_crc16 (pre ++ x :: post) <> _calculate_crc16 (pre ++ y :: post).
Proof.
  intros Hxy H. apply Hxy. unfold _calculate_crc16 in H.
  rewrite !fold_left_app in H. cbn [fold_left] in H.
  assert (word16 (fold_left crc_byte pre 0)) as Hpre
    by (apply fold_crc_range; unfold word16; lia).
  apply fold_crc_inj_state in H; auto using crc_byte_range.
  now apply (crc_byte_inj_byte (fold_left crc_byte pre 0)).
Qed.

End CrcFacts.

(* ------------------------------------------------------------------ *)
(** ** The parser on a packet split into header and rest                *)
(* ------------------------------------------------------------------ *)

Section ParserFacts.

Lemma ltb_add_8 (x y : Z) : (8 + x <? 8 + y + 2) = (x <? y + 2).
Proof. destruct (Z.ltb_spec (8 + x) (8 + y + 2)), (Z.ltb_spec x (y + 2)); lia. Qed.

Lemma ltb_add_8_10 (x : Z) : (8 + x <? 10) = (x <? 2).
Proof. destruct (Z.ltb_spec (8 + x) 10), (Z.ltb_spec x 2); lia. Qed.

Lemma u16_nonneg (lo hi : byte) : 0 <= byte_to_Z lo + 256 * byte_to_Z hi < 65536.
Proof. pose proof (byte_to_Z_range lo). pose proof (byte_to_Z_range hi). lia. Qed.

(** [parse_packet] on eight header bytes followed by [rest]: every slice
    of the code written out on [rest]. *)
Lemma parse_packet_cons (a0 a1 c l0 l1 s0 s1 cm : byte) (rest : list byte) :
  let hd := [a0; a1; c; l0; l1; s0; s1; cm] in
  let dl := byte_to_Z l0 + 256 * byte_to_Z l1 in
  parse_packet (hd ++ rest) =
    if len rest <? 2 then Ret None else
    if negb (byte_to_Z a0 + 256 * byte_to_Z a1 =? STX) then Ret None else
    if len rest <? dl + 2 then Ret None else
    received <- unpack_H (firstn 2 (skipn (Z.to_nat dl) rest)) ;;
    if negb (received =? _calculate_crc16 (hd ++ firstn (Z.to_nat dl) rest))
    then Ret None
    else Ret (Some {| ctrl := byte_to_Z c; data_len := dl;
                      seq := byte_to_Z s0 + 256 * byte_to_Z s1;
                      cmd_id := byte_to_Z cm;
                      data := firstn (Z.to_nat dl) rest;
                      crc16 := received |}).
Proof.
  intros hd dl. pose proof (u16_nonneg l0 l1) as Hdl. fold dl in Hdl.
  unfold parse_packet.
  rewrite len_app. change (len hd) with 8. rewrite ltb_add_8_10.
  destruct (len rest <? 2); [reflexivity|].
  change (slice (hd ++ rest) 0 8) with hd.
  unfold hd at 1, unpack_HBHHB. fold dl.
  destruct (negb (_ =? STX)); [reflexivity|].
  rewrite ltb_add_8.
  destruct (len rest <? dl + 2); [reflexivity|].
  assert (slice (hd ++ rest) (8 + dl) (8 + dl + 2)
          = firstn 2 (skipn (Z.to_nat dl) rest)) as ->.
  { unfold slice. replace (8 + dl + 2 - (8 + dl)) with 2 by lia.
    replace (Z.to_nat (8 + dl)) with (8 + Z.to_nat dl)%nat by lia.
    reflexivity. }
  assert (slice (hd ++ rest) 0 (8 + dl) = hd ++ firstn (Z.to_nat dl) rest) as ->.
  { rewrite slice_0.
    replace (Z.to_nat (8 + dl)) with (8 + Z.to_nat dl)%nat by lia.
    reflexivity. }
  assert (slice (hd ++ rest) 8 (8 + dl) = firstn (Z.to_nat dl) rest) as ->.
  { unfold slice. replace (8 + dl - 8) with dl by lia. reflexivity. }
  reflexivity.
Qed.

(** A byte string of at least eight bytes splits into header and rest. *)
Lemma split_header (p : list byte) :
  8 <= len p ->
  exists a0 a1 c l0 l1 s0 s1 cm rest,
    p = [a0; a1; c; l0; l1; s0; s1; cm] ++ rest.
Proof.
  unfold len. intros H.
  do 8 (destruct p as [|? p]; [cbn in H; lia|]).
  repeat eexists.
Qed.

End ParserFacts.

(* ------------------------------------------------------------------ *)
(** ** Building                                                         *)
(* ------------------------------------------------------------------ *)

Section BuilderFacts.

Lemma leb_range_true (lo hi v : Z) :
  lo <= v <= hi -> (lo <=? v) && (v <=? hi) = true.
Proof. intros H. apply andb_true_iff. split; apply Z.leb_le; lia. Qed.

Lemma leb_range_inv (lo hi v : Z) :
  (lo <=? v) && (v <=? hi) = true -> lo <= v <= hi.
Proof.
  intros H. apply andb_true_iff in H. destruct H as [H1 H2].
  apply Z.leb_le in H1, H2. lia.
Qed.

Lemma session_ok_init : session_ok Protocol.init.
Proof. unfold session_ok, word16. cbn. lia. Qed.

Lemma session_ok_build self cmd data need_ack :
  session_ok (fst (build_packet self cmd data need_ack)).
Proof.
  unfold session_ok, word16, build_packet. cbn.
  apply Z.mod_pos_bound. lia.
Qed.

(** When the five fields fit, the header is the eight bytes of
    [header_bytes]; otherwise [struct.pack] raises. *)
Lemma pack_header (ctrl dl seq cmd : Z) :
  pack_HBHHB STX ctrl dl seq cmd =
    if ((0 <=? ctrl) && (ctrl <=? 255)) && ((0 <=? dl) && (dl <=? 65535))
       && ((0 <=? seq) && (seq <=? 65535)) && ((0 <=? cmd) && (cmd <=? 255))
    then Ret (header_bytes ctrl dl seq cmd)
    else Raise StructError.
Proof.
  unfold pack_HBHHB, pack_H, pack_B, header_bytes.
  change ((0 <=? STX) && (STX <=? 65535)) with true. cbv iota.
  unfold bind at 1.
  destruct ((0 <=? ctrl) && (ctrl <=? 255)); [|reflexivity].
  destruct ((0 <=? dl) && (dl <=? 65535)); [|reflexivity].
  destruct ((0 <=? seq) && (seq <=? 65535)); [|reflexivity].
  destruct ((0 <=? cmd) && (cmd <=? 255)); reflexivity.
Qed.

(** What a successful [build_packet] returns, and when it succeeds. *)
Lemma build_packet_eq (self : SIYIProtocol) (cmd : Z) (data : list byte)
    (need_ack : bool) :
  session_ok self -> 0 <= cmd <= 255 -> len data <= 65535 ->
  exists tail,
    let hd := header_bytes (ctrl_of need_ack) (len data) (sequence self) cmd in
    pack_H (_calculate_crc16 (hd ++ data)) = Ret tail /\
    build_packet self cmd data need_ack
    = ({| sequence := (sequence self + 1) mod 65536 |},
       Ret ((hd ++ data) ++ tail)).
Proof.
  intros Hs Hc Hd. pose proof (len_nonneg data) as Hn.
  set (hd := header_bytes _ _ _ _).
  destruct (pack_H_ok (_calculate_crc16 (hd ++ data)) (crc16_range _))
    as [tail Ht].
  exists tail. split; [exact Ht|].
  unfold build_packet, _get_next_sequence. f_equal.
  fold (ctrl_of need_ack). rewrite pack_header.
  rewrite (leb_range_true 0 255 (ctrl_of need_ack)) 
    by (destruct need_ack; unfold ctrl_of, CTRL_NEED_ACK, CTRL_ACK_PACK; lia).
  rewrite (leb_range_true 0 65535 (len data)) by lia.
  rewrite (leb_range_true 0 65535 (sequence self)) by (unfold session_ok, word16 in Hs; lia).
  rewrite (leb_range_true 0 255 cmd) by lia.
  cbn [andb bind]. fold hd. rewrite Ht. reflexivity.
Qed.

(** Conversely a packet comes out only for arguments that fit. *)
Lemma build_packet_inv (self self' : SIYIProtocol) (cmd : Z)
    (data pkt : list byte) (need_ack : bool) :
  build_packet self cmd data need_ack = (self', Ret pkt) ->
  session_ok self /\ 0 <= cmd <= 255 /\ len data <= 65535.
Proof.
  unfold build_packet, _get_next_sequence. intros [= _ H].
  rewrite pack_header in H.
  destruct (_ && _) eqn:E in H; [|discriminate].
  apply andb_true_iff in E. destruct E as [E Hcmd].
  apply andb_true_iff in E. destruct E as [E Hseq].
  apply andb_true_iff in E. destruct E as [_ Hlen].
  apply leb_range_inv in Hcmd, Hseq, Hlen.
  unfold session_ok, word16. lia.
Qed.

End BuilderFacts.

(* ------------------------------------------------------------------ *)
(** ** Round trip                                                       *)
(* ------------------------------------------------------------------ *)

Section RoundTrip.

Lemma u16_roundtrip (v : Z) :
  word16 v ->
  byte_to_Z (Z_to_byte (v mod 256)) + 256 * byte_to_Z (Z_to_byte (v / 256)) = v.
Proof.
  unfold word16. intros Hv.
  rewrite byte_to_Z_to_byte by (apply Z.mod_pos_bound; lia).
  rewrite byte_to_Z_to_byte
    by (split; [apply Z.div_pos | apply Z.div_lt_upper_bound]; lia).
  pose proof (Z.div_mod v 256). lia.
Qed.

Lemma to_nat_len {A} (l : list A) : Z.to_nat (len l) = List.length l.
Proof. unfold len. lia. Qed.

Lemma firstn_len_app {A} (l1 l2 : list A) :
  firstn (Z.to_nat (len l1)) (l1 ++ l2) = l1.
Proof.
  rewrite to_nat_len, firstn_app, Nat.sub_diag, firstn_all. cbn.
  apply app_nil_r.
Qed.

Lemma skipn_len_app {A} (l1 l2 : list A) :
  skipn (Z.to_nat (len l1)) (l1 ++ l2) = l2.
Proof.
  rewrite to_nat_len, skipn_app, Nat.sub_diag, skipn_all. reflexivity.
Qed.

(** The parser on header, payload and checksum as the builder lays them out. *)
Lemma parse_built (c sq cmd : Z) (payload tail : list byte) :
  0 <= c <= 255 -> word16 sq -> 0 <= cmd <= 255 -> len payload <= 65535 ->
  let hd := header_bytes c (len payload) sq cmd in
  pack_H (_calculate_crc16 (hd ++ payload)) = Ret tail ->
  parse_packet ((hd ++ payload) ++ tail)
  = Ret (Some {| ctrl := c; data_len := len payload; seq := sq;
                 cmd_id := cmd; data := payload;
                 crc16 := _calculate_crc16 (hd ++ payload) |}).
Proof.
  intros Hc Hs Hcmd Hlen hd Ht.
  pose proof (len_nonneg payload) as Hn.
  apply unpack_pack_H in Ht. destruct Ht as [Hun Hl2].
  rewrite <- app_assoc. unfold hd at 1, header_bytes.
  rewrite parse_packet_cons. fold (header_bytes c (len payload) sq cmd). fold hd.
  rewrite (u16_roundtrip (len payload)) by (unfold word16; lia).
  rewrite (u16_roundtrip sq) by exact Hs.
  rewrite !byte_to_Z_to_byte by lia.
  assert (len tail = 2) as Hlt by (unfold len; lia).
  rewrite len_app, Hlt.
  replace (len payload + 2 <? 2) with false by (symmetry; apply Z.ltb_ge; lia).
  change (byte_to_Z x55 + 256 * byte_to_Z x66 =? STX) with true. cbv [negb].
  rewrite Z.ltb_irrefl.
  rewrite skipn_len_app, firstn_len_app.
  replace (firstn 2 tail) with tail by (symmetry; rewrite <- Hl2; apply firstn_all).
  rewrite Hun. cbv [bind]. rewrite Z.eqb_refl. reflexivity.
Qed.

End RoundTrip.

(** C1 as stated fails on a payload of 65536 bytes: its length does not
    fit the 16-bit length field, so [struct.pack] raises and no packet is
    built. *)
Lemma roundtrip_fails_on_long_payload :
  ~ exists pkt r,
      snd (build_packet Protocol.init GIMBAL_ROTATION long_payload false) = Ret pkt /\
      parse_packet pkt = Ret (Some r) /\
      cmd_id r = GIMBAL_ROTATION /\ data r = long_payload.
Proof.
  intros (pkt & r & H & _).
  assert (snd (build_packet Protocol.init GIMBAL_ROTATION long_payload false)
          = Raise StructError) as E by (vm_compute; reflexivity).
  rewrite E in H. discriminate H.
Qed.

(** C1 (amended): for every command id C in 0..255 and every payload P of
    at most 65535 bytes, on any session object the program can hold (its
    counter is a 16-bit value), [build_packet] returns a packet, and [parse_packet] on that packet succeeds with command id C
    and payload P (and the control flag, length and sequence number that
    were built in), for either value of [need_ack]. *)
Theorem parse_build_roundtrip (self : SIYIProtocol) (C : Z) (P : list byte)
    (need_ack : bool) :
  session_ok self -> 0 <= C <= 255 -> len P <= 65535 ->
  exists pkt r,
    snd (build_packet self C P need_ack) = Ret pkt /\
    parse_packet pkt = Ret (Some r) /\
    cmd_id r = C /\ data r = P /\
    ctrl r = ctrl_of need_ack /\ data_len r = len P /\ seq r = sequence self.
Proof.
  intros Hs Hc Hp.
  destruct (build_packet_eq self C P need_ack Hs Hc Hp) as [tail [Ht Hb]].
  eexists. eexists. rewrite Hb. split; [reflexivity|]. split.
  - apply parse_built; auto.
    destruct need_ack; unfold ctrl_of, CTRL_NEED_ACK, CTRL_ACK_PACK; lia.
  - cbn. auto.
Qed.

Lemma parse_build_roundtrip_witness :
  exists pkt r,
    snd (build_packet Protocol.init GIMBAL_ROTATION [x0a; xf6] true) = Ret pkt /\
    parse_packet pkt = Ret (Some r) /\
    cmd_id r = GIMBAL_ROTATION /\ data r = [x0a; xf6] /\
    ctrl r = ctrl_of true /\ data_len r = len [x0a; xf6] /\
    seq r = sequence Protocol.init.
Proof.
  apply (parse_build_roundtrip Protocol.init GIMBAL_ROTATION [x0a; xf6] true).
  - unfold session_ok, word16. simpl. lia.
  - unfold GIMBAL_ROTATION. lia.
  - unfold len. simpl. lia.
Defined.

(* ------------------------------------------------------------------ *)
(** ** Known vector                                                     *)
(* ------------------------------------------------------------------ *)

(** C3 as stated fails: with an empty payload the length field is 0 and
    the packet has ten bytes, [55 66 01 00 00 00 00 00 45 d4]. *)
Lemma heartbeat_empty_payload_differs :
  snd (build_packet Protocol.init HEARTBEAT [] false)
  = Ret [x55; x66; x01; x00; x00; x00; x00; x00; x45; xd4] /\
  snd (build_packet Protocol.init HEARTBEAT [] false)
  <> Ret [x55; x66; x01; x01; x00; x00; x00; x00; x00; x59; x8b].
Proof. split; [vm_compute; reflexivity | vm_compute; discriminate]. Qed.

(** C3 (amended): building a heartbeat packet (command id 0x00) with the
    one-byte payload [00], as the heartbeat loop sends it, on a fresh
    session (sequence counter 0) produces exactly the bytes
    [55 66 01 01 00 00 00 00 00 59 8b]; a connected link with a fresh
    session hands exactly these bytes to the socket on its first heartbeat. *)
Theorem heartbeat_known_vector :
  build_packet Protocol.init HEARTBEAT [x00] false
  = ({| sequence := 1 |},
     Ret [x55; x66; x01; x01; x00; x00; x00; x00; x00; x59; x8b]) /\
  forall s : Connection.Socket,
    Connection.broken s = false ->
    Connection.socket
      (fst (Connection.heartbeat_once
              {| Connection.protocol := Protocol.init;
                 Connection.socket := Some s;
                 Connection.connected := true |}))
    = Some {| Connection.sent :=
                Connection.sent s ++
                [[x55; x66; x01; x01; x00; x00; x00; x00; x00; x59; x8b]];
              Connection.broken := false |}.
Proof.
  split; [vm_compute; reflexivity|].
  intros s Hs. unfold Connection.heartbeat_once, Connection.send_packet.
  cbn [Connection.socket Connection.connected Connection.protocol negb].
  change (build_packet Protocol.init HEARTBEAT [x00] false)
    with ({| sequence := 1 |},
          Ret [x55; x66; x01; x01; x00; x00; x00; x00; x00; x59; x8b]).
  unfold Connection.sendall. rewrite Hs. reflexivity.
Qed.

(* ------------------------------------------------------------------ *)
(** ** Sequence numbers                                                 *)
(* ------------------------------------------------------------------ *)

Section Sequence.

Lemma build_packet_fst (self : SIYIProtocol) cmd data need_ack :
  fst (build_packet self cmd data need_ack)
  = {| sequence := (sequence self + 1) mod 65536 |}.
Proof. reflexivity. Qed.

(** The outcome of a call depends on the session only through its counter. *)
Lemma build_all_cons (self : SIYIProtocol) (c : Call) (calls : list Call) :
  build_all self (c :: calls)
  = (fst (build_all (fst (build_packet self (call_cmd c) (call_data c) (call_ack c))) calls),
     snd (build_packet self (call_cmd c) (call_data c) (call_ack c))
     :: snd (build_all (fst (build_packet self (call_cmd c) (call_data c) (call_ack c))) calls)).
Proof.
  cbn [build_all].
  destruct (build_packet self (call_cmd c) (call_data c) (call_ack c)) as [s r].
  cbn [fst snd]. destruct (build_all s calls). reflexivity.
Qed.

Lemma build_all_nth (calls : list Call) :
  forall (self : SIYIProtocol) (i : nat) (c : Call),
  session_ok self ->
  nth_error calls i = Some c ->
  nth_error (snd (build_all self calls)) i
  = Some (snd (build_packet
                 {| sequence := (sequence self + Z.of_nat i) mod 65536 |}
                 (call_cmd c) (call_data c) (call_ack c))).
Proof.
  induction calls as [|c0 calls IH]; intros self i c Hs Hi.
  - destruct i; discriminate Hi.
  - rewrite build_all_cons. cbn [snd]. destruct i as [|i].
    + cbn in Hi. injection Hi as ->. cbn [nth_error].
      rewrite Z.add_0_r, Z.mod_small by exact Hs.
      now destruct self.
    + cbn [nth_error] in *.
      rewrite (IH _ i c (session_ok_build _ _ _ _) Hi).
      rewrite build_packet_fst. cbn [sequence].
      rewrite Z.add_mod_idemp_l by lia.
      replace (sequence self + 1 + Z.of_nat i)
        with (sequence self + Z.of_nat (S i)) by lia.
      reflexivity.
Qed.

Lemma build_all_counter (calls : list Call) :
  forall self : SIYIProtocol,
  session_ok self ->
  sequence (fst (build_all self calls)) = (sequence self + len calls) mod 65536.
Proof.
  induction calls as [|c0 calls IH]; intros self Hs.
  - cbn. unfold len. cbn. rewrite Z.add_0_r. symmetry. now apply Z.mod_small.
  - rewrite build_all_cons. cbn [fst].
    rewrite IH by apply session_ok_build.
    rewrite build_packet_fst. cbn [sequence].
    rewrite Z.add_mod_idemp_l by lia.
    f_equal. unfold len. cbn [List.length]. lia.
Qed.

(** Bytes 5 and 6 of a built packet hold the counter the call found. *)
Lemma built_seq_field (self self' : SIYIProtocol) cmd data need_ack pkt :
  build_packet self cmd data need_ack = (self', Ret pkt) ->
  seq_field pkt = sequence self.
Proof.
  intros H. destruct (build_packet_inv _ _ _ _ _ _ H) as (Hs & Hc & Hd).
  destruct (build_packet_eq self cmd data need_ack Hs Hc Hd) as [tail [_ Hb]].
  rewrite Hb in H. injection H as _ <-.
  unfold seq_field, u16_at, byte_at, header_bytes. cbn [app nth].
  now apply u16_roundtrip.
Qed.

End Sequence.

(** C4: N consecutive [build_packet] calls on one freshly constructed
    session embed the sequence numbers 0, 1, ..., N-1 modulo 65536 in the
    packets, in order: the call at position [i] (counted from 0) returns a
    packet whenever its arguments fit, and every packet it returns carries
    [i mod 65536] in its sequence field; so the 65537th call (position
    65536) uses sequence 0 again, and after N calls the counter is
    [N mod 65536]. *)
Theorem sequence_numbers_in_order (calls : list Call) (i : nat) (c : Call) :
  nth_error calls i = Some c ->
  exists r,
    nth_error (snd (build_all Protocol.init calls)) i = Some r /\
    (call_fits c -> exists pkt, r = Ret pkt) /\
    (forall pkt, r = Ret pkt -> seq_field pkt = Z.of_nat i mod 65536) /\
    (Z.of_nat i = 65536 -> forall pkt, r = Ret pkt -> seq_field pkt = 0) /\
    sequence (fst (build_all Protocol.init calls)) = len calls mod 65536.
Proof.
  intros Hi. eexists. split; [apply (build_all_nth calls _ i c session_ok_init Hi)|].
  change (sequence Protocol.init) with 0. rewrite Z.add_0_l.
  set (self := {| sequence := Z.of_nat i mod 65536 |}).
  assert (session_ok self) as Hs
    by (unfold session_ok, word16, self; cbn; apply Z.mod_pos_bound; lia).
  assert (forall pkt,
            snd (build_packet self (call_cmd c) (call_data c) (call_ack c)) = Ret pkt ->
            seq_field pkt = Z.of_nat i mod 65536) as Hseq.
  { intros pkt Hp.
    destruct (build_packet self (call_cmd c) (call_data c) (call_ack c))
      as [s' r'] eqn:E.
    cbn in Hp. subst r'. now rewrite (built_seq_field _ _ _ _ _ _ E). }
  repeat split.
  - intros [Hc Hd].
    destruct (build_packet_eq self (call_cmd c) (call_data c) (call_ack c) Hs Hc Hd)
      as [tail [_ Hb]].
    rewrite Hb. eexists. reflexivity.
  - exact Hseq.
  - intros Hi' pkt Hp. now rewrite (Hseq pkt Hp), Hi'.
  - rewrite (build_all_counter calls _ session_ok_init). reflexivity.
Qed.

Lemma sequence_numbers_in_order_witness :
  exists r,
    nth_error (snd (build_all Protocol.init
                      [ {| call_cmd := HEARTBEAT; call_data := [x00]; call_ack := false |};
                        {| call_cmd := CENTER; call_data := [x01]; call_ack := false |};
                        {| call_cmd := GIMBAL_ROTATION; call_data := [x0a; xf6]; call_ack := false |} ]))
      2
    = Some r /\
    (call_fits {| call_cmd := GIMBAL_ROTATION; call_data := [x0a; xf6]; call_ack := false |} ->
     exists pkt, r = Ret pkt) /\
    (forall pkt, r = Ret pkt -> seq_field pkt = Z.of_nat 2 mod 65536) /\
    (Z.of_nat 2 = 65536 -> forall pkt, r = Ret pkt -> seq_field pkt = 0) /\
    sequence (fst (build_all Protocol.init
                      [ {| call_cmd := HEARTBEAT; call_data := [x00]; call_ack := false |};
                        {| call_cmd := CENTER; call_data := [x01]; call_ack := false |};
                        {| call_cmd := GIMBAL_ROTATION; call_data := [x0a; xf6]; call_ack := false |} ]))
    = len [ {| call_cmd := HEARTBEAT; call_data := [x00]; call_ack := false |};
            {| call_cmd := CENTER; call_data := [x01]; call_ack := false |};
            {| call_cmd := GIMBAL_ROTATION; call_data := [x0a; xf6]; call_ack := false |} ]
      mod 65536.
Proof.
  apply (sequence_numbers_in_order _ 2
           {| call_cmd := GIMBAL_ROTATION; call_data := [x0a; xf6]; call_ack := false |}).
  reflexivity.
Defined.

(* ------------------------------------------------------------------ *)
(** ** What the parser rejects and what it returns                      *)
(* ------------------------------------------------------------------ *)

Section ParserCases.

Lemma firstn2_skipn (l : list byte) :
  forall n : nat,
  (n + 2 <= List.length l)%nat ->
  firstn 2 (skipn n l) = [nth n l x00; nth (S n) l x00].
Proof.
  induction l as [|a l IH]; intros n Hn; [cbn in Hn; lia|].
  destruct n as [|n].
  - destruct l as [|b l]; [cbn in Hn; lia|]. reflexivity.
  - cbn [skipn nth]. apply IH. cbn in Hn. lia.
Qed.

(** [parse_packet] in terms of the field accessors, for an input long
    enough to hold a header. *)
Lemma parse_packet_fields (p : list byte) :
  10 <= len p ->
  parse_packet p =
    if negb (stx_field p =? STX) then Ret None else
    if len p <? 8 + data_len_field p + 2 then Ret None else
    if negb (checksum_field p =? _calculate_crc16 (covered p)) then Ret None
    else Ret (Some (fields p)).
Proof.
  intros Hlen.
  destruct (split_header p) as (a0 & a1 & c & l0 & l1 & s0 & s1 & cm & rest & ->);
    [lia|].
  rewrite parse_packet_cons.
  rewrite len_app in Hlen |- *. change (len [a0; a1; c; l0; l1; s0; s1; cm]) with 8 in *.
  replace (len rest <? 2) with false by (symmetry; apply Z.ltb_ge; lia).
  unfold fields, stx_field, ctrl_field, data_len_field, seq_field, cmd_id_field,
    payload_field, checksum_field, covered, u16_at, byte_at.
  cbn [app nth skipn].
  pose proof (u16_nonneg l0 l1) as Hdl.
  set (dl := byte_to_Z l0 + 256 * byte_to_Z l1) in *.
  destruct (negb (_ =? STX)); [reflexivity|].
  rewrite ltb_add_8.
  destruct (Z.ltb_spec (len rest) (dl + 2)) as [|Hfit]; [reflexivity|].
  rewrite (firstn2_skipn rest (Z.to_nat dl)) by (unfold len in Hfit; lia).
  cbn [unpack_H bind Nat.add nth firstn].
  reflexivity.
Qed.

Lemma parse_packet_short (p : list byte) : len p < 10 -> parse_packet p = Ret None.
Proof.
  intros H. unfold parse_packet.
  now replace (len p <? 10) with true by (symmetry; apply Z.ltb_lt; lia).
Qed.

End ParserCases.

Section ParserVerdict.

Lemma malformed_dec (p : list byte) : malformed p \/ ~ malformed p.
Proof.
  unfold malformed, too_short, bad_marker, truncated, bad_checksum.
  destruct (Z.lt_ge_cases (len p) 10); [tauto|].
  destruct (Z.eq_dec (stx_field p) 0x6655); [|tauto].
  destruct (Z.lt_ge_cases (len p) (8 + data_len_field p + 2)); [tauto|].
  destruct (Z.eq_dec (checksum_field p) (_calculate_crc16 (covered p)));
    [right; intros [?|[?|[?|?]]]; (lia || congruence) | tauto].
Qed.

Lemma malformed_rejected (p : list byte) :
  malformed p -> parse_packet p = Ret None.
Proof.
  unfold malformed, too_short, bad_marker, truncated, bad_checksum.
  intros H.
  destruct (Z.lt_ge_cases (len p) 10) as [Hs|Hl];
    [exact (parse_packet_short p Hs)|].
  rewrite (parse_packet_fields p Hl). unfold STX.
  destruct (Z.eqb_spec (stx_field p) 0x6655) as [Hm|Hm]; cbn [negb];
    [|reflexivity].
  destruct (Z.ltb_spec (len p) (8 + data_len_field p + 2)) as [Ht|Ht];
    [reflexivity|].
  destruct (Z.eqb_spec (checksum_field p) (_calculate_crc16 (covered p)))
    as [Hc|Hc]; cbn [negb]; [|reflexivity].
  destruct H as [?|[?|[?|?]]]; (lia || congruence).
Qed.

Lemma wellformed_accepted (p : list byte) :
  ~ malformed p -> parse_packet p = Ret (Some (fields p)).
Proof.
  unfold malformed, too_short, bad_marker, truncated, bad_checksum.
  intros H.
  destruct (Z.lt_ge_cases (len p) 10) as [Hs|Hl]; [tauto|].
  rewrite (parse_packet_fields p Hl). unfold STX.
  destruct (Z.eqb_spec (stx_field p) 0x6655) as [Hm|Hm]; cbn [negb];
    [|tauto].
  destruct (Z.ltb_spec (len p) (8 + data_len_field p + 2)) as [Ht|Ht];
    [tauto|].
  destruct (Z.eqb_spec (checksum_field p) (_calculate_crc16 (covered p)))
    as [Hc|Hc]; cbn [negb]; [reflexivity|tauto].
Qed.

End ParserVerdict.

(** C5: [parse_packet] never raises; it returns [None] exactly when the
    input is shorter than 10 bytes, or its start marker differs from
    0x6655, or the declared payload length exceeds the bytes available, or
    the recomputed CRC-16 disagrees with the trailing checksum; on every
    other input it returns the control flag, length, sequence, command id
    and payload fields of the input (and the checksum it read). *)
Theorem parse_packet_rejects_exactly (p : list byte) :
  (parse_packet p = Ret None <-> malformed p) /\
  (~ malformed p -> parse_packet p = Ret (Some (fields p))) /\
  (parse_packet p = Ret None \/ parse_packet p = Ret (Some (fields p))).
Proof.
  pose proof (malformed_rejected p) as Hr.
  pose proof (wellformed_accepted p) as Ha.
  destruct (malformed_dec p) as [Hm|Hm].
  - specialize (Hr Hm). rewrite Hr. tauto.
  - specialize (Ha Hm). rewrite Ha. repeat split; try tauto.
    discriminate.
Qed.

(* ------------------------------------------------------------------ *)
(** ** Bytes after the checksum                                         *)
(* ------------------------------------------------------------------ *)

Section Trailing.

Lemma firstn_app_within {A} (l junk : list A) (n : nat) :
  (n <= List.length l)%nat -> firstn n (l ++ junk) = firstn n l.
Proof.
  intros H. rewrite firstn_app.
  replace (n - List.length l)%nat with 0%nat by lia.
  cbn. apply app_nil_r.
Qed.

Lemma firstn_skipn_app_within {A} (l junk : list A) (n k : nat) :
  (n + k <= List.length l)%nat ->
  firstn k (skipn n (l ++ junk)) = firstn k (skipn n l).
Proof.
  intros H. rewrite skipn_app.
  apply firstn_app_within. rewrite length_skipn. lia.
Qed.

End Trailing.

(** C10: [parse_packet] ignores any bytes beyond the declared payload plus
    checksum: when it succeeds on [b], it succeeds on [b ++ junk] for every
    [junk] and returns exactly the same control flag, length, sequence,
    command id, payload and checksum fields. *)
Theorem parse_packet_ignores_trailing (b junk : list byte) (r : Parsed) :
  parse_packet b = Ret (Some r) ->
  parse_packet (b ++ junk) = Ret (Some r).
Proof.
  intros H.
  destruct (Z.lt_ge_cases (len b) 10) as [Hs|Hl];
    [rewrite (parse_packet_short b Hs) in H; discriminate|].
  destruct (split_header b) as (a0 & a1 & c & l0 & l1 & s0 & s1 & cm & rest & ->);
    [lia|].
  rewrite <- app_assoc. rewrite parse_packet_cons in H |- *.
  pose proof (u16_nonneg l0 l1) as Hdl.
  set (dl := byte_to_Z l0 + 256 * byte_to_Z l1) in *.
  destruct (Z.ltb_spec (len rest) 2) as [|H2]; [discriminate|].
  destruct (negb (_ =? STX)); [discriminate|].
  destruct (Z.ltb_spec (len rest) (dl + 2)) as [|Hfit]; [discriminate|].
  pose proof (len_nonneg junk) as Hj.
  rewrite len_app.
  replace (len rest + len junk <? 2) with false
    by (symmetry; apply Z.ltb_ge; lia).
  replace (len rest + len junk <? dl + 2) with false
    by (symmetry; apply Z.ltb_ge; lia).
  rewrite firstn_skipn_app_within by (unfold len in Hfit; lia).
  rewrite firstn_app_within by (unfold len in Hfit; lia).
  exact H.
Qed.

Lemma parse_packet_ignores_trailing_witness :
  parse_packet ([x55; x66; x01; x01; x00; x00; x00; x00; x00; x59; x8b]
                ++ [xde; xad; xbe; xef])
  = Ret (Some {| ctrl := 1; data_len := 1; seq := 0; cmd_id := 0;
                 data := [x00]; crc16 := 0x8b59 |}).
Proof.
  apply parse_packet_ignores_trailing. vm_compute. reflexivity.
Defined.

(* ------------------------------------------------------------------ *)
(** ** Single-bit corruption                                            *)
(* ------------------------------------------------------------------ *)

Section BitFlips.

Lemma byte_lxor_range (a b : Z) :
  0 <= a < 256 -> 0 <= b < 256 -> 0 <= Z.lxor a b < 256.
Proof.
  intros Ha Hb.
  assert (forall x, 0 <= x < 256 -> Z.land x (Z.ones 8) = x) as Hland
    by (intros x Hx; rewrite Z.land_ones by lia; now apply Z.mod_small).
  rewrite <- (Hland a Ha), <- (Hland b Hb), <- land_lxor_distr.
  rewrite Z.land_ones by lia. apply Z.mod_pos_bound. lia.
Qed.

Lemma pow2_byte_range (k : nat) : (k < 8)%nat -> 0 < 2 ^ Z.of_nat k < 256.
Proof.
  intros Hk. split; [apply Z.pow_pos_nonneg; lia|].
  change 256 with (2 ^ 8). apply Z.pow_lt_mono_r; lia.
Qed.

Lemma byte_to_Z_flip (b : byte) (k : nat) :
  (k < 8)%nat ->
  byte_to_Z (flip_byte b k) = Z.lxor (byte_to_Z b) (2 ^ Z.of_nat k).
Proof.
  intros Hk. unfold flip_byte. apply byte_to_Z_to_byte.
  pose proof (pow2_byte_range k Hk).
  apply byte_lxor_range; [apply byte_to_Z_range | lia].
Qed.

Lemma flip_byte_changes (b : byte) (k : nat) :
  (k < 8)%nat -> byte_to_Z (flip_byte b k) <> byte_to_Z b.
Proof.
  intros Hk H. rewrite byte_to_Z_flip in H by exact Hk.
  pose proof (pow2_byte_range k Hk) as Hp.
  rewrite <- (Z.lxor_0_r (byte_to_Z b)) in H at 2.
  rewrite !(Z.lxor_comm (byte_to_Z b)) in H.
  apply lxor_cancel_r in H. lia.
Qed.

Lemma flip_byte_neq (b : byte) (k : nat) : (k < 8)%nat -> flip_byte b k <> b.
Proof. intros Hk H. apply (flip_byte_changes b k Hk). now rewrite H. Qed.

(** Flipping a clear bit adds its weight. *)
Lemma flip_clear_bit (b : byte) (k : nat) :
  (k < 8)%nat ->
  Z.testbit (byte_to_Z b) (Z.of_nat k) = false ->
  byte_to_Z (flip_byte b k) = byte_to_Z b + 2 ^ Z.of_nat k.
Proof.
  intros Hk Hbit. rewrite byte_to_Z_flip by exact Hk.
  symmetry. apply Z.add_nocarry_lxor.
  apply Z.bits_inj'. intros m Hm.
  rewrite Z.land_spec, Z.bits_0, Z.pow2_bits_eqb by lia.
  destruct (Z.eqb_spec (Z.of_nat k) m) as [<-|]; [now rewrite Hbit|].
  apply andb_false_r.
Qed.

(** Flipping a set bit takes its weight away. *)
Lemma flip_set_bit (b : byte) (k : nat) :
  (k < 8)%nat ->
  Z.testbit (byte_to_Z b) (Z.of_nat k) = true ->
  byte_to_Z (flip_byte b k) = byte_to_Z b - 2 ^ Z.of_nat k.
Proof.
  intros Hk Hbit. rewrite byte_to_Z_flip by exact Hk.
  set (c := Z.lxor (byte_to_Z b) (2 ^ Z.of_nat k)).
  assert (Z.land c (2 ^ Z.of_nat k) = 0) as Hland.
  { apply Z.bits_inj'. intros m Hm.
    rewrite Z.land_spec, Z.bits_0, Z.pow2_bits_eqb by lia.
    destruct (Z.eqb_spec (Z.of_nat k) m) as [<-|]; [|apply andb_false_r].
    unfold c. rewrite Z.lxor_spec, Hbit, Z.pow2_bits_true by lia. reflexivity. }
  apply Z.add_nocarry_lxor in Hland.
  assert (Z.lxor c (2 ^ Z.of_nat k) = byte_to_Z b) as Hback
    by (unfold c; now rewrite Z.lxor_assoc, Z.lxor_nilpotent, Z.lxor_0_r).
  lia.
Qed.

Lemma length_flip_at (p : list byte) (k : nat) :
  forall i, List.length (flip_at p i k) = List.length p.
Proof.
  induction p as [|b p IH]; intros [|i]; cbn; auto.
Qed.

Lemma nth_flip_at_same (p : list byte) (k : nat) :
  forall i, (i < List.length p)%nat ->
  nth i (flip_at p i k) x00 = flip_byte (nth i p x00) k.
Proof.
  induction p as [|b p IH]; intros [|i] H; cbn in *; try lia; auto.
  apply IH. lia.
Qed.

Lemma nth_flip_at_other (p : list byte) (k : nat) :
  forall i j, i <> j -> nth j (flip_at p i k) x00 = nth j p x00.
Proof.
  induction p as [|b p IH]; intros [|i] [|j] H; cbn; try reflexivity;
    try congruence.
  apply IH. congruence.
Qed.

Lemma firstn_flip_at_below (p : list byte) (k : nat) :
  forall i m, (i < m)%nat ->
  firstn m (flip_at p i k) = flip_at (firstn m p) i k.
Proof.
  induction p as [|b p IH]; intros [|i] [|m] H; cbn; try reflexivity; try lia.
  f_equal. apply IH. lia.
Qed.

Lemma firstn_flip_at_above (p : list byte) (k : nat) :
  forall i m, (m <= i)%nat -> firstn m (flip_at p i k) = firstn m p.
Proof.
  induction p as [|b p IH]; intros [|i] [|m] H; cbn; try reflexivity; try lia.
  f_equal. apply IH. lia.
Qed.

Lemma flip_at_split (p : list byte) (k : nat) :
  forall i, (i < List.length p)%nat ->
  exists pre x post,
    p = pre ++ x :: post /\ flip_at p i k = pre ++ flip_byte x k :: post.
Proof.
  induction p as [|b p IH]; intros [|i] H; cbn in H; try lia.
  - exists [], b, p. split; reflexivity.
  - destruct (IH i) as (pre & x & post & -> & E); [lia|].
    exists (b :: pre), x, post. cbn. now rewrite E.
Qed.

(** Corrupting a covered byte changes the checksum of what is covered. *)
Lemma crc16_flip_at (l : list byte) (i k : nat) :
  (i < List.length l)%nat -> (k < 8)%nat ->
  _calculate_crc16 (flip_at l i k) <> _calculate_crc16 l.
Proof.
  intros Hi Hk.
  destruct (flip_at_split l k i Hi) as (pre & x & post & -> & ->).
  apply crc16_one_byte. now apply flip_byte_neq.
Qed.

Lemma byte_at_flip_same (p : list byte) (i k : nat) :
  (i < List.length p)%nat ->
  byte_at (flip_at p i k) i = byte_to_Z (flip_byte (nth i p x00) k).
Proof. intros H. unfold byte_at. now rewrite nth_flip_at_same. Qed.

Lemma byte_at_flip_other (p : list byte) (i k j : nat) :
  i <> j -> byte_at (flip_at p i k) j = byte_at p j.
Proof. intros H. unfold byte_at. now rewrite nth_flip_at_other. Qed.

Lemma u16_at_flip_other (p : list byte) (i k j : nat) :
  i <> j -> i <> S j -> u16_at (flip_at p i k) j = u16_at p j.
Proof.
  intros H1 H2. unfold u16_at. now rewrite !byte_at_flip_other.
Qed.

(** Corrupting either byte of a 16-bit field changes its value. *)
Lemma u16_at_flip_inside (p : list byte) (i k j : nat) :
  (i < List.length p)%nat -> (k < 8)%nat -> i = j \/ i = S j ->
  u16_at (flip_at p i k) j <> u16_at p j.
Proof.
  intros Hi Hk [->| ->]; unfold u16_at.
  - rewrite byte_at_flip_same, byte_at_flip_other by (auto; lia).
    pose proof (flip_byte_changes (nth j p x00) k Hk). unfold byte_at. lia.
  - rewrite byte_at_flip_same, byte_at_flip_other by (auto; lia).
    pose proof (flip_byte_changes (nth (S j) p x00) k Hk). unfold byte_at. lia.
Qed.

(** Setting a clear bit of a 16-bit field makes its value larger. *)
Lemma u16_at_flip_clear (p : list byte) (i k j : nat) :
  (i < List.length p)%nat -> (k < 8)%nat -> i = j \/ i = S j ->
  Z.testbit (byte_at p i) (Z.of_nat k) = false ->
  u16_at p j < u16_at (flip_at p i k) j.
Proof.
  intros Hi Hk Hij Hbit. pose proof (pow2_byte_range k Hk) as Hp.
  destruct Hij as [->| ->]; unfold u16_at;
    rewrite byte_at_flip_same, byte_at_flip_other by (auto; lia);
    rewrite (flip_clear_bit _ k Hk Hbit); unfold byte_at; lia.
Qed.

(** Clearing a set bit of a 16-bit field makes its value smaller. *)
Lemma u16_at_flip_set (p : list byte) (i k j : nat) :
  (i < List.length p)%nat -> (k < 8)%nat -> i = j \/ i = S j ->
  Z.testbit (byte_at p i) (Z.of_nat k) = true ->
  u16_at (flip_at p i k) j < u16_at p j.
Proof.
  intros Hi Hk Hij Hbit. pose proof (pow2_byte_range k Hk) as Hp.
  destruct Hij as [->| ->]; unfold u16_at;
    rewrite byte_at_flip_same, byte_at_flip_other by (auto; lia);
    rewrite (flip_set_bit _ k Hk Hbit); unfold byte_at; lia.
Qed.

End BitFlips.

Section Corruption.

Lemma u16_at_range (p : list byte) (j : nat) : word16 (u16_at p j).
Proof. unfold u16_at, byte_at. apply u16_nonneg. Qed.

Lemma len_flip_at (p : list byte) (i k : nat) : len (flip_at p i k) = len p.
Proof. unfold len. now rewrite length_flip_at. Qed.

(** On a packet with nothing after its checksum, a flipped bit is
    rejected unless it clears a set bit of the length field. *)
Lemma flip_exact_rejected (p : list byte) (n : nat) :
  exact_packet p ->
  (n < 8 * List.length p)%nat ->
  ~ (in_length_field n /\ bit_set p n = true) ->
  parse_packet (flip_bit p n) = Ret None.
Proof.
  intros [Hwf Hlen] Hn Hbit.
  unfold flip_bit, in_length_field, bit_set in *.
  set (i := (n / 8)%nat) in *. set (k := (n mod 8)%nat) in *.
  assert (i < List.length p)%nat as Hi
    by (apply Nat.Div0.div_lt_upper_bound; lia).
  assert (k < 8)%nat as Hk by (apply Nat.mod_upper_bound; lia).
  unfold malformed, too_short, bad_marker, truncated, bad_checksum in Hwf.
  assert (stx_field p = 0x6655) as Hstx
    by (destruct (Z.eq_dec (stx_field p) 0x6655); tauto).
  assert (checksum_field p = _calculate_crc16 (covered p)) as Hsum
    by (destruct (Z.eq_dec (checksum_field p) (_calculate_crc16 (covered p))); tauto).
  pose proof (u16_at_range p 3) as Hdl. fold (data_len_field p) in Hdl.
  unfold word16 in Hdl.
  apply malformed_rejected.
  unfold malformed, too_short, bad_marker, truncated, bad_checksum.
  destruct (Nat.eq_dec i 0) as [E0|N0]; [|destruct (Nat.eq_dec i 1) as [E1|N1]].
  - (* low byte of the marker *)
    right; left. unfold stx_field. rewrite <- Hstx. unfold stx_field.
    apply u16_at_flip_inside; auto.
  - (* high byte of the marker *)
    right; left. unfold stx_field. rewrite <- Hstx. unfold stx_field.
    apply u16_at_flip_inside; auto.
  - destruct (Nat.eq_dec i 3) as [E3|N3]; [|destruct (Nat.eq_dec i 4) as [E4|N4]].
    + (* length field, low byte: the bit was clear *)
      right; right; left. rewrite len_flip_at, Hlen.
      assert (Z.testbit (byte_at p i) (Z.of_nat k) = false) as Hclear
        by (destruct (Z.testbit (byte_at p i) (Z.of_nat k)); tauto).
      pose proof (u16_at_flip_clear p i k 3 Hi Hk (or_introl E3) Hclear).
      unfold data_len_field. lia.
    + (* length field, high byte: the bit was clear *)
      right; right; left. rewrite len_flip_at, Hlen.
      assert (Z.testbit (byte_at p i) (Z.of_nat k) = false) as Hclear
        by (destruct (Z.testbit (byte_at p i) (Z.of_nat k)); tauto).
      assert (i = 3 \/ i = 4)%nat as Hor by (right; exact E4).
      pose proof (u16_at_flip_clear p i k 3 Hi Hk Hor Hclear).
      unfold data_len_field. lia.
    + (* any other byte: the declared length is unchanged *)
      right; right; right.
      assert (data_len_field (flip_at p i k) = data_len_field p) as Hsame
        by (unfold data_len_field; apply u16_at_flip_other; lia).
      unfold checksum_field, covered in *. rewrite Hsame.
      set (m := (8 + Z.to_nat (data_len_field p))%nat) in *.
      assert (List.length p = m + 2)%nat as Hm by (unfold len in Hlen; lia).
      destruct (Nat.lt_ge_cases i m) as [Hlt|Hge].
      * (* a covered byte: the recomputed checksum moves *)
        rewrite u16_at_flip_other by lia.
        rewrite firstn_flip_at_below by exact Hlt.
        rewrite Hsum. apply not_eq_sym. apply crc16_flip_at; [|exact Hk].
        rewrite length_firstn. lia.
      * (* a checksum byte: the stored checksum moves *)
        rewrite firstn_flip_at_above by exact Hge.
        rewrite <- Hsum. apply u16_at_flip_inside; auto. lia.
Qed.

(** On a packet with nothing after its checksum, clearing a set bit of
    the length field leaves only the checksum test: the marker is
    untouched and the shorter declared length fits. *)
Lemma flip_exact_shortened (p : list byte) (n : nat) :
  exact_packet p ->
  (n < 8 * List.length p)%nat ->
  in_length_field n -> bit_set p n = true ->
  data_len_field (flip_bit p n) < data_len_field p /\
  (malformed (flip_bit p n) <-> ~ checksum_verifies (flip_bit p n)).
Proof.
  intros [Hwf Hlen] Hn Hin Hbit.
  unfold flip_bit, in_length_field, bit_set in *.
  set (i := (n / 8)%nat) in *. set (k := (n mod 8)%nat) in *.
  assert (i < List.length p)%nat as Hi
    by (apply Nat.Div0.div_lt_upper_bound; lia).
  assert (k < 8)%nat as Hk by (apply Nat.mod_upper_bound; lia).
  unfold malformed, too_short, bad_marker, truncated, bad_checksum in Hwf.
  assert (stx_field p = 0x6655) as Hstx
    by (destruct (Z.eq_dec (stx_field p) 0x6655); tauto).
  assert (i = 3 \/ i = 4)%nat as Hor by exact Hin.
  pose proof (u16_at_flip_set p i k 3 Hi Hk Hor Hbit) as Hless.
  fold (data_len_field (flip_at p i k)) (data_len_field p) in Hless.
  pose proof (u16_at_range (flip_at p i k) 3) as Hdl.
  fold (data_len_field (flip_at p i k)) in Hdl. unfold word16 in Hdl.
  assert (stx_field (flip_at p i k) = 0x6655) as Hstx'
    by (unfold stx_field in *; rewrite u16_at_flip_other by lia; exact Hstx).
  split; [exact Hless|].
  unfold malformed, too_short, bad_marker, truncated, bad_checksum,
    checksum_verifies.
  rewrite len_flip_at, Hlen, Hstx'. split; [|tauto].
  intros [H|[H|[H|H]]]; [lia | congruence | lia | exact H].
Qed.

(** What [build_packet] returns is a packet with nothing after its
    checksum. *)
Lemma built_exact (self self' : SIYIProtocol) (cmd : Z) (data pkt : list byte)
    (need_ack : bool) :
  build_packet self cmd data need_ack = (self', Ret pkt) ->
  exact_packet pkt.
Proof.
  intros H. destruct (build_packet_inv _ _ _ _ _ _ H) as (Hs & Hc & Hd).
  destruct (build_packet_eq self cmd data need_ack Hs Hc Hd) as [tail [Ht Hb]].
  rewrite Hb in H. injection H as _ <-.
  pose proof (len_nonneg data) as Hn.
  assert (0 <= ctrl_of need_ack <= 255) as Hctrl
    by (destruct need_ack; unfold ctrl_of, CTRL_NEED_ACK, CTRL_ACK_PACK; lia).
  pose proof (parse_built _ _ _ _ _ Hctrl Hs Hc Hd Ht) as Hparse.
  set (pkt := (header_bytes _ _ _ _ ++ data) ++ tail) in *.
  assert (data_len_field pkt = len data) as Hdl.
  { unfold pkt, data_len_field, u16_at, byte_at, header_bytes. cbn [app nth].
    apply u16_roundtrip. unfold word16. lia. }
  split.
  - intros Hm. rewrite (malformed_rejected pkt Hm) in Hparse. discriminate.
  - change (len pkt = 8 + data_len_field pkt + 2).
    rewrite Hdl. unfold pkt. rewrite !len_app.
    apply unpack_pack_H in Ht. destruct Ht as [_ Ht].
    unfold header_bytes, len. rewrite Ht. cbn [List.length]. lia.
Qed.

End Corruption.

(** C2 as stated fails: the payload [45 d4] is the checksum of the header
    with length 0; clearing bit 1 of the low length byte (bit 25 of the
    packet) turns the declared length 2 into 0, and the parser accepts the
    first ten bytes as an empty-payload packet. *)
Lemma length_bit_flip_accepted :
  snd (build_packet Protocol.init HEARTBEAT [x45; xd4] false)
  = Ret [x55; x66; x01; x02; x00; x00; x00; x00; x45; xd4; xa1; xd8] /\
  flip_bit [x55; x66; x01; x02; x00; x00; x00; x00; x45; xd4; xa1; xd8] 25
  = [x55; x66; x01; x00; x00; x00; x00; x00; x45; xd4; xa1; xd8] /\
  parse_packet
    (flip_bit [x55; x66; x01; x02; x00; x00; x00; x00; x45; xd4; xa1; xd8] 25)
  = Ret (Some {| ctrl := 1; data_len := 0; seq := 0; cmd_id := 0;
                 data := []; crc16 := 0xd445 |}).
Proof. repeat split; vm_compute; reflexivity. Qed.

(** C2 (amended): for every packet produced by [build_packet] and every
    single bit position in it, flipping that one bit yields a byte string
    on which [parse_packet] fails (returns [None]), with one exception: the
    flip clears a set bit of the two payload-length bytes and the two bytes
    found where the shortened packet declares its checksum are the checksum
    of the bytes it declares covered.  In that case [parse_packet] returns
    the shortened packet. *)
Theorem single_bit_flip_rejected (self self' : SIYIProtocol) (cmd : Z)
    (data pkt : list byte) (need_ack : bool) (n : nat) :
  build_packet self cmd data need_ack = (self', Ret pkt) ->
  (n < 8 * List.length pkt)%nat ->
  (parse_packet (flip_bit pkt n) = Ret None <->
   ~ (in_length_field n /\ bit_set pkt n = true /\
      checksum_verifies (flip_bit pkt n))) /\
  (in_length_field n /\ bit_set pkt n = true /\
   checksum_verifies (flip_bit pkt n) ->
   parse_packet (flip_bit pkt n) = Ret (Some (fields (flip_bit pkt n))) /\
   data_len_field (flip_bit pkt n) < len data).
Proof.
  intros Hb Hn. pose proof (built_exact _ _ _ _ _ _ Hb) as Hex.
  assert (in_length_field n /\ bit_set pkt n = true \/
          ~ (in_length_field n /\ bit_set pkt n = true)) as [[Hin Hbit]|Hout].
  { unfold in_length_field.
    destruct (bit_set pkt n); [|right; intros [_ H]; discriminate].
    destruct (Nat.eq_dec (n / 8) 3); [left; auto|].
    destruct (Nat.eq_dec (n / 8) 4); [left; auto|].
    right. intros [[H|H] _]; contradiction. }
  - destruct (flip_exact_shortened pkt n Hex Hn Hin Hbit) as [Hless Hiff].
    assert (data_len_field pkt = len data) as Hdl.
    { destruct (build_packet_inv _ _ _ _ _ _ Hb) as (Hs & Hc & Hd).
      destruct (build_packet_eq self cmd data need_ack Hs Hc Hd) as [tail [Ht Hp]].
      rewrite Hp in Hb. injection Hb as _ <-.
      pose proof (len_nonneg data).
      unfold data_len_field, u16_at, byte_at, header_bytes. cbn [app nth].
      apply u16_roundtrip. unfold word16. lia. }
    split.
    + split.
      * intros Hnone (_ & _ & Hv).
        assert (~ malformed (flip_bit pkt n)) as Hwf by tauto.
        rewrite (wellformed_accepted _ Hwf) in Hnone. discriminate.
      * intros Hno. apply malformed_rejected. apply Hiff. tauto.
    + intros (_ & _ & Hv). split; [|lia].
      apply wellformed_accepted. tauto.
  - split.
    + split; [tauto|]. intros _. now apply flip_exact_rejected.
    + tauto.
Qed.

(** In the heartbeat packet bit 24 is a set bit of the length field;
    clearing it is rejected all the same, because the bytes [00 59] then
    read as the checksum are not the checksum of the eight header bytes. *)
Lemma single_bit_flip_rejected_witness :
  bit_set [x55; x66; x01; x01; x00; x00; x00; x00; x00; x59; x8b] 24 = true /\
  in_length_field 24 /\
  parse_packet
    (flip_bit [x55; x66; x01; x01; x00; x00; x00; x00; x00; x59; x8b] 24)
  = Ret None.
Proof.
  split; [reflexivity|]. split; [left; reflexivity|].
  destruct (single_bit_flip_rejected Protocol.init {| sequence := 1 |}
              HEARTBEAT [x00] [x55; x66; x01; x01; x00; x00; x00; x00; x00; x59; x8b]
              false 24) as [[_ H] _].
  - vm_compute. reflexivity.
  - simpl. lia.
  - apply H. intros (_ & _ & Hv). vm_compute in Hv. discriminate Hv.
Defined.

(* ------------------------------------------------------------------ *)
(** ** The PID controller                                               *)
(* ------------------------------------------------------------------ *)

Section PidFacts.
Import Pid.
Local Open Scope Q_scope.

Lemma Qltb_lt (a b : Q) : Qltb a b = true <-> a < b.
Proof.
  unfold Qltb. rewrite negb_true_iff.
  destruct (Qle_bool b a) eqn:E.
  - apply Qle_bool_iff in E. split; [discriminate|].
    intros H. exfalso. apply (Qlt_irrefl a). now apply Qlt_le_trans with b.
  - split; [|reflexivity]. intros _.
    apply Qnot_le_lt. intros H. apply Qle_bool_iff in H. congruence.
Qed.

Lemma Qltb_ge (a b : Q) : Qltb a b = false <-> b <= a.
Proof.
  unfold Qltb. rewrite negb_false_iff. apply Qle_bool_iff.
Qed.

Lemma py_min_Qmin (a b : Q) : py_min a b == Qmin a b.
Proof.
  unfold py_min. destruct (Qltb b a) eqn:E.
  - apply Qltb_lt in E. symmetry. apply Q.min_r. now apply Qlt_le_weak.
  - apply Qltb_ge in E. symmetry. now apply Q.min_l.
Qed.

Lemma py_max_Qmax (a b : Q) : py_max a b == Qmax a b.
Proof.
  unfold py_max. destruct (Qltb a b) eqn:E.
  - apply Qltb_lt in E. symmetry. apply Q.max_r. now apply Qlt_le_weak.
  - apply Qltb_ge in E. symmetry. now apply Q.max_l.
Qed.

Lemma py_clamp_clamped (lo hi x y : Q) :
  x == y -> py_max (py_min x hi) lo == clamped lo hi y.
Proof.
  intros H. unfold clamped.
  rewrite py_max_Qmax, py_min_Qmin. now rewrite H.
Qed.

(** A call that finds no time stamp takes the [dt = 0.0] branch. *)
Lemma update_without_timestamp (s : PIDController) (e t : Q) :
  last_time s = None -> first_update_ok s e t.
Proof.
  intros H. unfold first_update_ok, update, update_terms. rewrite H.
  cbn [fst snd dt d_term integral output].
  change (Qltb 0 0) with false. cbv iota.
  repeat split.
  - ring.
  - apply py_clamp_clamped. ring.
Qed.

End PidFacts.

(** C6: for every PID controller state and every error value e, the first
    [update(e)] call after [reset()] and the first after construction use
    dt = 0: the derivative term is 0, the integral accumulator is unchanged
    by the call, and the output equals Kp*e + Ki*integral clamped to the
    configured output range. *)
Theorem first_update_after_reset_or_init (s : Pid.PIDController) (e t : Q) :
  first_update_ok (Pid.reset s) e t /\
  forall (kp ki kd : Q) (output_limits : Q * Q),
    first_update_ok (Pid.init kp ki kd output_limits) e t.
Proof.
  split; [|intros kp ki kd lim]; now apply update_without_timestamp.
Qed.

(* ------------------------------------------------------------------ *)
(** ** The control loop's gimbal operations                             *)
(* ------------------------------------------------------------------ *)

Section GimbalFacts.
Import Sdk Pid Gimbal.
Local Open Scope Q_scope.

(** Speeds are clamped before [struct.pack('bb', ...)], so it never raises. *)
Lemma pack_bb_clamped (yaw pitch : Z) :
  exists data,
    pack_bb (Z.max (-100) (Z.min 100 yaw)) (Z.max (-100) (Z.min 100 pitch))
    = Ret data.
Proof.
  unfold pack_bb, pack_b.
  rewrite (leb_range_true (-128) 127) by lia. cbn [bind].
  rewrite (leb_range_true (-128) 127) by lia. cbn [bind].
  eexists. reflexivity.
Qed.

Lemma rotate_gimbal_returns (s : SIYISDK) (yaw pitch : Z) :
  exists s' sent_ok, rotate_gimbal s yaw pitch = (s', Ret sent_ok).
Proof.
  unfold rotate_gimbal, gimbal_rotate.
  destruct (pack_bb_clamped yaw pitch) as [data ->].
  destruct (Connection.send_packet _ _ _ _) as [c r].
  eexists. eexists. reflexivity.
Qed.

(** The last part of [update_tracking], from the throttle test on. *)
Ltac send_tail Hc :=
  match goal with
  | |- context [Qltb (move_interval ?a) ?b] =>
      destruct (Qltb (move_interval a) b)
  end;
  [ match goal with
    | |- context [orb ?a ?b] => destruct (orb a b)
    end;
    [ | unfold stop; cbn [connected set_pid_yaw set_pid_pitch];
        rewrite Hc; cbn [negb sdk set_pid_yaw set_pid_pitch] ];
    match goal with
    | |- context [rotate_gimbal ?s ?y ?p] =>
        let s' := fresh "s'" in
        let b := fresh "b" in
        let E := fresh "E" in
        destruct (rotate_gimbal_returns s y p) as (s' & b & E); rewrite E
    end;
    cbn [bind]
  | ];
  eexists; eexists; eexists; (split; [reflexivity|]);
  repeat split; try reflexivity; cbn; eauto 6.

(** With the link up, [update_tracking] always returns a pair of speeds;
    the controller it leaves keeps its flag and deadzone, and its PID
    objects are those the two axis branches produced. *)
Lemma update_tracking_connected (g : GimbalController) (ex ey : Q) (clk : Clock) :
  connected g = true ->
  exists g' yaw pitch,
    update_tracking g ex ey clk = (g', Ret (Some (yaw, pitch))) /\
    connected g' = true /\ deadzone g' = deadzone g /\
    (pid_yaw g', yaw)
    = (if Qltb (deadzone g) (Qabs ex)
       then (fst (update (pid_yaw g) ex (t_yaw clk)),
             py_int (snd (update (pid_yaw g) ex (t_yaw clk))))
       else (reset (pid_yaw g), 0%Z)) /\
    (pid_pitch g', pitch)
    = (if Qltb (deadzone g) (Qabs ey)
       then (fst (update (pid_pitch g) (- ey) (t_pitch clk)),
             py_int (snd (update (pid_pitch g) (- ey) (t_pitch clk))))
       else (reset (pid_pitch g), 0%Z)) /\
    (sdk g' = sdk g \/
     exists y p sent_ok, rotate_gimbal (sdk g) y p = (sdk g', Ret sent_ok)).
Proof.
  intros Hc. unfold update_tracking. rewrite Hc. cbn [negb].
  destruct (Qltb (deadzone g) (Qabs ex));
    [destruct (update (pid_yaw g) ex (t_yaw clk)) as [py oy]|];
    cbn [set_pid_yaw deadzone pid_pitch fst snd];
    (destruct (Qltb (deadzone g) (Qabs ey));
     [destruct (update (pid_pitch g) (- ey) (t_pitch clk)) as [pp op]|]);
    cbn [set_pid_pitch set_pid_yaw move_interval last_move_time sdk fst snd];
    send_tail Hc.
Qed.

Lemma update_tracking_keeps_link (g : GimbalController) (ex ey : Q) (clk : Clock) :
  connected g = true ->
  connected (fst (update_tracking g ex ey clk)) = true /\
  deadzone (fst (update_tracking g ex ey clk)) = deadzone g.
Proof.
  intros Hc.
  destruct (update_tracking_connected g ex ey clk Hc)
    as (g' & y & p & -> & H1 & H2 & _).
  now split.
Qed.

(** In the deadzone the yaw branch resets its controller and reports 0. *)
Lemma update_tracking_yaw_deadzone (g : GimbalController) (ex ey : Q) (clk : Clock) :
  connected g = true -> Qabs ex <= deadzone g ->
  exists g' pitch,
    update_tracking g ex ey clk = (g', Ret (Some (0%Z, pitch))) /\
    pid_yaw g' = reset (pid_yaw g).
Proof.
  intros Hc Hx.
  destruct (update_tracking_connected g ex ey clk Hc)
    as (g' & y & p & -> & _ & _ & Hy & _).
  apply Qltb_ge in Hx. rewrite Hx in Hy. injection Hy as Hpid ->.
  exists g', p. split; [reflexivity | exact Hpid].
Qed.

Lemma update_tracking_pitch_deadzone (g : GimbalController) (ex ey : Q) (clk : Clock) :
  connected g = true -> Qabs ey <= deadzone g ->
  exists g' yaw,
    update_tracking g ex ey clk = (g', Ret (Some (yaw, 0%Z))) /\
    pid_pitch g' = reset (pid_pitch g).
Proof.
  intros Hc Hx.
  destruct (update_tracking_connected g ex ey clk Hc)
    as (g' & y & p & -> & _ & _ & _ & Hp & _).
  apply Qltb_ge in Hx. rewrite Hx in Hp. injection Hp as Hpid ->.
  exists g', y. split; [reflexivity | exact Hpid].
Qed.

(** A run of in-deadzone cycles keeps both accumulators at 0 once they
    are 0. *)
Lemma track_all_deadzone (cycles : list Cycle) :
  forall g : GimbalController,
  connected g = true ->
  (forall c, In c cycles -> Qabs (error_x c) <= deadzone g) ->
  integral (pid_yaw g) = 0 ->
  integral (pid_yaw (track_all g cycles)) = 0.
Proof.
  induction cycles as [|c cycles IH]; intros g Hc Hin H0; [exact H0|].
  unfold track_all. cbn [fold_left]. fold (track_all
    (fst (update_tracking g (error_x c) (error_y c) (clock c))) cycles).
  destruct (update_tracking_keeps_link g (error_x c) (error_y c) (clock c) Hc)
    as [Hc' Hd'].
  apply IH; [exact Hc'| |].
  - intros c' Hc''. rewrite Hd'. apply Hin. now right.
  - destruct (update_tracking_yaw_deadzone g (error_x c) (error_y c) (clock c) Hc)
      as (g' & p & E & Hpid); [apply Hin; now left|].
    rewrite E. cbn [fst]. rewrite Hpid. reflexivity.
Qed.

Lemma track_all_deadzone_pitch (cycles : list Cycle) :
  forall g : GimbalController,
  connected g = true ->
  (forall c, In c cycles -> Qabs (error_y c) <= deadzone g) ->
  integral (pid_pitch g) = 0 ->
  integral (pid_pitch (track_all g cycles)) = 0.
Proof.
  induction cycles as [|c cycles IH]; intros g Hc Hin H0; [exact H0|].
  unfold track_all. cbn [fold_left]. fold (track_all
    (fst (update_tracking g (error_x c) (error_y c) (clock c))) cycles).
  destruct (update_tracking_keeps_link g (error_x c) (error_y c) (clock c) Hc)
    as [Hc' Hd'].
  apply IH; [exact Hc'| |].
  - intros c' Hc''. rewrite Hd'. apply Hin. now right.
  - destruct (update_tracking_pitch_deadzone g (error_x c) (error_y c) (clock c) Hc)
      as (g' & p & E & Hpid); [apply Hin; now left|].
    rewrite E. cbn [fst]. rewrite Hpid. reflexivity.
Qed.

Lemma send_packet_link_down (c : Connection.SIYIConnection) (cmd : Z)
    (payload : list byte) (need_ack : bool) :
  link_down c -> Connection.send_packet c cmd payload need_ack = (c, false).
Proof.
  intros [H|H]; unfold Connection.send_packet.
  - rewrite H. now destruct (Connection.socket c).
  - now rewrite H.
Qed.

Lemma rotate_gimbal_link_down (s : SIYISDK) (yaw pitch : Z) :
  link_down (connection s) -> rotate_gimbal s yaw pitch = (s, Ret false).
Proof.
  intros H. unfold rotate_gimbal, gimbal_rotate.
  destruct (pack_bb_clamped yaw pitch) as [data ->].
  rewrite (send_packet_link_down _ _ _ _ H). now destruct s.
Qed.

Lemma center_gimbal_link_down (s : SIYISDK) :
  link_down (connection s) -> center_gimbal s = (s, false).
Proof.
  intros H. unfold center_gimbal, gimbal_center.
  rewrite (send_packet_link_down _ _ _ _ H). now destruct s.
Qed.

(** Whatever the controller's own flag says, with the link down its four
    motion operations return normally and leave the facade, hence the
    session counter and the socket, untouched. *)
Lemma motion_link_down (g : GimbalController) (ex ey : Q) (clk : Clock)
    (yaw pitch : Z) :
  link_down (connection (sdk g)) ->
  (sdk (fst (update_tracking g ex ey clk)) = sdk g /\
   returns (snd (update_tracking g ex ey clk))) /\
  (sdk (fst (stop g)) = sdk g /\ returns (snd (stop g))) /\
  (sdk (fst (move_gimbal g yaw pitch)) = sdk g /\
   returns (snd (move_gimbal g yaw pitch))) /\
  (sdk (fst (center g)) = sdk g /\ returns (snd (center g))).
Proof.
  intros Hdown. unfold returns.
  destruct (connected g) eqn:Hc.
  - repeat split.
    + destruct (update_tracking_connected g ex ey clk Hc)
        as (g' & y & p & -> & _ & _ & _ & _ & [Hs|(y' & p' & b & Hs)]);
        [exact Hs|].
      rewrite (rotate_gimbal_link_down _ _ _ Hdown) in Hs. now injection Hs.
    + destruct (update_tracking_connected g ex ey clk Hc)
        as (g' & y & p & -> & _). eexists. reflexivity.
    + unfold stop. rewrite Hc, (rotate_gimbal_link_down _ _ _ Hdown). reflexivity.
    + unfold stop. rewrite Hc, (rotate_gimbal_link_down _ _ _ Hdown).
      eexists. reflexivity.
    + unfold move_gimbal. rewrite Hc, (rotate_gimbal_link_down _ _ _ Hdown).
      reflexivity.
    + unfold move_gimbal. rewrite Hc, (rotate_gimbal_link_down _ _ _ Hdown).
      eexists. reflexivity.
    + unfold center. rewrite Hc, (center_gimbal_link_down _ Hdown). reflexivity.
    + unfold center. rewrite Hc, (center_gimbal_link_down _ Hdown).
      eexists. reflexivity.
  - unfold update_tracking, stop, move_gimbal, center. rewrite Hc. cbn [negb fst snd].
    repeat split; eexists; reflexivity.
Qed.

End GimbalFacts.

(** C7 as stated fails on a controller that is not connected:
    [update_tracking] returns at its guard, so no axis speed is computed
    and the yaw controller is not reset (its accumulator still holds 5). *)
Lemma deadzone_update_while_offline :
  (Qabs 0 <= Gimbal.deadzone offline_controller)%Q /\
  Gimbal.update_tracking offline_controller 0 0 noon
  = (offline_controller, Ret None) /\
  Gimbal.pid_yaw (fst (Gimbal.update_tracking offline_controller 0 0 noon))
  <> Pid.reset (Gimbal.pid_yaw offline_controller) /\
  Pid.integral
    (Gimbal.pid_yaw (fst (Gimbal.update_tracking offline_controller 0 0 noon)))
  = 5%Q.
Proof.
  split; [|split; [|split]].
  - vm_compute. discriminate.
  - reflexivity.
  - cbn. discriminate.
  - reflexivity.
Qed.

(** C7 (amended): while the controller is connected, for every per-axis
    pixel error with |error| <= deadzone, [update_tracking] computes axis
    speed exactly 0 for that axis and resets that axis's PID controller;
    so after any number (at least one) of consecutive in-deadzone updates
    that axis's integral accumulator is 0: it never grows. *)
Theorem deadzone_axis_zero_and_reset (g : Gimbal.GimbalController) :
  Gimbal.connected g = true ->
  (forall (ex ey : Q) (clk : Gimbal.Clock),
     (Qabs ex <= Gimbal.deadzone g)%Q ->
     exists g' pitch,
       Gimbal.update_tracking g ex ey clk = (g', Ret (Some (0, pitch))) /\
       Gimbal.pid_yaw g' = Pid.reset (Gimbal.pid_yaw g)) /\
  (forall (ex ey : Q) (clk : Gimbal.Clock),
     (Qabs ey <= Gimbal.deadzone g)%Q ->
     exists g' yaw,
       Gimbal.update_tracking g ex ey clk = (g', Ret (Some (yaw, 0))) /\
       Gimbal.pid_pitch g' = Pid.reset (Gimbal.pid_pitch g)) /\
  (forall cycles : list Cycle,
     cycles <> [] ->
     (forall c, In c cycles -> (Qabs (error_x c) <= Gimbal.deadzone g)%Q) ->
     Pid.integral (Gimbal.pid_yaw (track_all g cycles)) = 0%Q) /\
  (forall cycles : list Cycle,
     cycles <> [] ->
     (forall c, In c cycles -> (Qabs (error_y c) <= Gimbal.deadzone g)%Q) ->
     Pid.integral (Gimbal.pid_pitch (track_all g cycles)) = 0%Q).
Proof.
  intros Hc. split; [|split; [|split]].
  - intros ex ey clk Hx. now apply update_tracking_yaw_deadzone.
  - intros ex ey clk Hy. now apply update_tracking_pitch_deadzone.
  - intros [|c cycles] Hne Hin; [congruence|].
    unfold track_all. cbn [fold_left].
    destruct (update_tracking_keeps_link g (error_x c) (error_y c) (clock c) Hc)
      as [Hc' Hd'].
    apply track_all_deadzone; [exact Hc'| |].
    + intros c' Hc''. rewrite Hd'. apply Hin. now right.
    + destruct (update_tracking_yaw_deadzone g (error_x c) (error_y c) (clock c) Hc)
        as (g' & p & E & Hpid); [apply Hin; now left|].
      rewrite E. cbn [fst]. rewrite Hpid. reflexivity.
  - intros [|c cycles] Hne Hin; [congruence|].
    unfold track_all. cbn [fold_left].
    destruct (update_tracking_keeps_link g (error_x c) (error_y c) (clock c) Hc)
      as [Hc' Hd'].
    apply track_all_deadzone_pitch; [exact Hc'| |].
    + intros c' Hc''. rewrite Hd'. apply Hin. now right.
    + destruct (update_tracking_pitch_deadzone g (error_x c) (error_y c) (clock c) Hc)
        as (g' & p & E & Hpid); [apply Hin; now left|].
      rewrite E. cbn [fst]. rewrite Hpid. reflexivity.
Qed.

Lemma deadzone_axis_zero_and_reset_witness :
  exists g' pitch,
    Gimbal.update_tracking online_controller 5 (-(30)) noon
    = (g', Ret (Some (0, pitch))) /\
    Gimbal.pid_yaw g' = Pid.reset (Gimbal.pid_yaw online_controller).
Proof.
  destruct (deadzone_axis_zero_and_reset online_controller) as [H _].
  - reflexivity.
  - apply H. vm_compute. discriminate.
Defined.

(* ------------------------------------------------------------------ *)
(** ** Commands without a session                                       *)
(* ------------------------------------------------------------------ *)

(** C9: when no session is connected, motion commands are no-ops:
    [send_packet] returns [False] and leaves the connection object as it
    was (nothing is written to a socket, no sequence number is consumed);
    the [GimbalController] operations [update_tracking], [stop],
    [move_gimbal] and [center], called on a controller that is not
    connected, return without raising and leave the controller as it was
    (no device command is issued); and whatever the controller's own flag,
    with the link down they return without raising and leave the facade
    with its connection as it was. *)
Theorem offline_commands_are_noops :
  (forall (c : Connection.SIYIConnection) (cmd : Z) (payload : list byte)
          (need_ack : bool),
     link_down c ->
     Connection.send_packet c cmd payload need_ack = (c, false)) /\
  (forall (g : Gimbal.GimbalController) (ex ey : Q) (clk : Gimbal.Clock)
          (yaw pitch : Z),
     Gimbal.connected g = false ->
     Gimbal.update_tracking g ex ey clk = (g, Ret None) /\
     Gimbal.stop g = (g, Ret tt) /\
     Gimbal.move_gimbal g yaw pitch = (g, Ret false) /\
     Gimbal.center g = (g, Ret tt)) /\
  (forall (g : Gimbal.GimbalController) (ex ey : Q) (clk : Gimbal.Clock)
          (yaw pitch : Z),
     link_down (Sdk.connection (Gimbal.sdk g)) ->
     (Gimbal.sdk (fst (Gimbal.update_tracking g ex ey clk)) = Gimbal.sdk g /\
      returns (snd (Gimbal.update_tracking g ex ey clk))) /\
     (Gimbal.sdk (fst (Gimbal.stop g)) = Gimbal.sdk g /\
      returns (snd (Gimbal.stop g))) /\
     (Gimbal.sdk (fst (Gimbal.move_gimbal g yaw pitch)) = Gimbal.sdk g /\
      returns (snd (Gimbal.move_gimbal g yaw pitch))) /\
     (Gimbal.sdk (fst (Gimbal.center g)) = Gimbal.sdk g /\
      returns (snd (Gimbal.center g)))).
Proof.
  split; [|split].
  - exact send_packet_link_down.
  - intros g ex ey clk yaw pitch H.
    unfold Gimbal.update_tracking, Gimbal.stop, Gimbal.move_gimbal, Gimbal.center.
    rewrite H. cbn [negb]. auto.
  - exact motion_link_down.
Qed.

(* ------------------------------------------------------------------ *)
(** ** Identity-lock selection                                          *)
(* ------------------------------------------------------------------ *)

Section FloatOrder.

Ltac compare_cases :=
  repeat match goal with
  | H : context [Z.compare ?a ?b] |- _ => destruct (Z.compare_spec a b)
  | |- context [Z.compare ?a ?b] => destruct (Z.compare_spec a b)
  | H : context [Pos.compare_cont Eq ?a ?b] |- _ =>
      change (Pos.compare_cont Eq a b) with (Pos.compare a b) in H;
      destruct (Pos.compare_spec a b)
  | |- context [Pos.compare_cont Eq ?a ?b] =>
      change (Pos.compare_cont Eq a b) with (Pos.compare a b);
      destruct (Pos.compare_spec a b)
  end.

(** By cases on the kinds and signs of the operands, then on how their
    exponents and mantissas compare. *)
Ltac float_order :=
  unfold Float.ltb, Float.leb, Float.nan, Float.inf, SFltb, SFleb, SFcompare;
  intros;
  repeat match goal with
  | x : Float.float |- _ => destruct x as [[]|[]| |[] ? ?]
  end;
  cbn in *; try congruence; try reflexivity;
  compare_cases; subst; cbn in *; try congruence; try lia.

Lemma float_ltb_irrefl (a : Float.float) : Float.ltb a a = false.
Proof. float_order. Qed.

Lemma float_ltb_trans (a b c : Float.float) :
  Float.ltb a b = true -> Float.ltb b c = true -> Float.ltb a c = true.
Proof. float_order. Qed.

Lemma float_leb_ltb_trans (a b c : Float.float) :
  Float.leb a b = true -> Float.ltb b c = true -> Float.ltb a c = true.
Proof. float_order. Qed.

(** Two floats that are numbers are comparable. *)
Lemma float_ltb_total (a b : Float.float) :
  a <> Float.nan -> b <> Float.nan ->
  Float.ltb a b = false -> Float.leb b a = true.
Proof. float_order. Qed.

(** A comparison with NaN is false. *)
Lemma float_ltb_not_nan (a b : Float.float) :
  Float.ltb a b = true -> a <> Float.nan /\ b <> Float.nan.
Proof. float_order; split; congruence. Qed.

Lemma float_nan_dec (a : Float.float) : a = Float.nan \/ a <> Float.nan.
Proof. destruct a; [right|right|left|right]; unfold Float.nan; congruence. Qed.

Lemma radius_below_inf : Float.ltb radius Float.inf = true.
Proof. reflexivity. Qed.

End FloatOrder.

Section Selection.
Import Tracker.

Variable C : Collaborators.
Variable box : Box.

Lemma selected_start : selected C box [] (Float.inf, None).
Proof. split; [intros t []|now left]. Qed.

(** One turn of the loop keeps the invariant. *)
Lemma selected_step (seen : list STrack) (acc : Float.float * option Z)
    (t : STrack) :
  selected C box seen acc ->
  selected C box (seen ++ [t]) (select_step C (centre box) acc t).
Proof.
  intros [Hmin Hbest]. destruct acc as [min_dist best_id].
  unfold select_step. fold (distance C box t). cbn [fst] in Hmin.
  destruct (Float.ltb (distance C box t) min_dist) eqn:E.
  - (* a nearer track: it becomes the best *)
    split.
    + cbn [fst]. intros t' Hin. apply in_app_or in Hin.
      destruct Hin as [Hin|[<-|[]]]; [|apply float_ltb_irrefl].
      destruct (Float.ltb (distance C box t') (distance C box t)) eqn:E'; [|reflexivity].
      rewrite <- (Hmin t' Hin). symmetry.
      now apply float_ltb_trans with (distance C box t).
    + right. exists seen, t, []. split; [reflexivity|]. split; [reflexivity|].
      split.
      * destruct Hbest as [[= -> _]|(pre & t0 & post & _ & [= -> _] & Hinf & _)];
          [exact E|].
        now apply float_ltb_trans with (distance C box t0).
      * intros t' Hin.
        destruct (Float.leb (distance C box t') (distance C box t)) eqn:E'; [|reflexivity].
        rewrite <- (Hmin t' Hin). symmetry.
        now apply float_leb_ltb_trans with (distance C box t).
  - (* not nearer: the best stays *)
    split.
    + cbn [fst]. intros t' Hin. apply in_app_or in Hin.
      destruct Hin as [Hin|[<-|[]]]; [now apply Hmin | exact E].
    + destruct Hbest as [Hbest|(pre & t0 & post & -> & Hacc & Hinf & Hpre)];
        [now left|].
      right. exists pre, t0, (post ++ [t]). rewrite <- app_assoc. auto.
Qed.

Lemma selected_fold (tracks : list STrack) :
  forall seen acc,
  selected C box seen acc ->
  selected C box (seen ++ tracks) (fold_left (select_step C (centre box)) tracks acc).
Proof.
  induction tracks as [|t tracks IH]; intros seen acc H.
  - now rewrite app_nil_r.
  - cbn [fold_left].
    replace (seen ++ t :: tracks) with ((seen ++ [t]) ++ tracks)
      by (now rewrite <- app_assoc).
    apply IH. now apply selected_step.
Qed.

(** The loop ends on the first of the tracks at the least computed
    distance, if any distance is below infinity. *)
Lemma selected_all (tracks : list STrack) :
  selected C box tracks (fold_left (select_step C (centre box)) tracks (Float.inf, None)).
Proof. apply (selected_fold tracks [] _ selected_start). Qed.

(** [init] in the BYTE branch with a detector and at least one detection,
    in terms of the loop's result. *)
Lemma init_byte (self : ObjectTracker C) (frame : Frame C) :
  tracker_type self = "BYTE"%string ->
  has_detector self = true ->
  detect C frame <> [] ->
  let tracks :=
    snd (byte_update C (BYTETracker C) (map format_det (detect C frame))) in
  let self' := fst (init C self frame box) in
  let msgs := snd (init C self frame box) in
  match fold_left (select_step C (centre box)) tracks (Float.inf, None) with
  | (min_dist, Some id) =>
      if Float.ltb min_dist radius
      then tracking_active self' = true /\ tracked_id self' = Some id /\
           In (LockedOnID id) msgs
      else tracking_active self' = false /\ tracked_id self' = tracked_id self /\
           In CouldNotMatch msgs
  | (_, None) =>
      tracking_active self' = false /\ tracked_id self' = tracked_id self /\
      In CouldNotMatch msgs
  end.
Proof.
  intros Hty Hdet Hne. unfold init, _create_tracker.
  cbn [tracker_type set_tracker set_tracking_active has_detector].
  rewrite Hty, Hdet. cbn [String.eqb Ascii.eqb Bool.eqb].
  destruct (detect C frame) as [|d ds]; [congruence|].
  cbn [map handle_update].
  destruct (byte_update C (BYTETracker C) (format_det d :: map format_det ds))
    as [bt tracks].
  cbn [snd]. fold radius.
  destruct (fold_left _ tracks (Float.inf, None)) as [min_dist [id|]].
  - destruct (Float.ltb min_dist radius); cbn; auto.
  - cbn; auto.
Qed.

(** [init] in the BYTE branch without a detector. *)
Lemma init_byte_no_detector (self : ObjectTracker C) (frame : Frame C) :
  tracker_type self = "BYTE"%string ->
  has_detector self = false ->
  tracking_active (fst (init C self frame box)) = false /\
  tracked_id (fst (init C self frame box)) = tracked_id self /\
  In RequiresDetector (snd (init C self frame box)).
Proof.
  intros Hty Hdet. unfold init, _create_tracker.
  cbn [tracker_type set_tracker set_tracking_active has_detector].
  rewrite Hty, Hdet. cbn. auto.
Qed.

End Selection.

(** C8 as stated fails at the radius itself: a single track whose centre
    is exactly 100 px from the centre of the requested box (the centres are
    (100, 0) and (0, 0), and the computed distance is the float 100) is the
    closest one and within "<= 100 px", yet [init] leaves the tracker
    inactive. *)
Lemma track_at_radius_is_rejected :
  let frame := [person_at 100 0] in
  let box := origin_box in
  let tracks :=
    snd (Tracker.byte_update echo (Tracker.BYTETracker echo)
           (map Tracker.format_det (Tracker.detect echo frame))) in
  (exists t,
     tracks = [t] /\
     Tracker.centre box = (Float.of_Z 0, Float.of_Z 0) /\
     Tracker.centre (Tracker.tlwh t) = (Float.of_Z 100, Float.of_Z 0) /\
     distance echo box t = Float.of_Z 100 /\
     Float.leb (distance echo box t) radius = true) /\
  Tracker.tracking_active (fst (Tracker.init echo byte_tracker frame box)) = false.
Proof.
  cbv zeta. split.
  - eexists. split; [reflexivity|]. repeat split; vm_compute; reflexivity.
  - vm_compute. reflexivity.
Qed.

(** The distance compared is the computed one.  The centre of the box
    (59.99999999999996, 80.00000000000003, 0, 0) is less than 100 px from
    the origin, but the squares round to a sum of 10000 and the computed
    distance is the float 100: a track at the origin is rejected. *)
Lemma rounded_distance_decides :
  let frame := [{| Tracker.label := "person"; Tracker.score := Float.of_Z 1;
                   Tracker.bbox := (Float.of_Z 0, Float.of_Z 0,
                                    Float.of_Z 0, Float.of_Z 0) |}] in
  let mx := 8444249301319674 in
  let my := 5629499534213122 in
  let box := (Float.of_bits mx (-47), Float.of_bits my (-46),
              Float.of_Z 0, Float.of_Z 0) in
  let tracks :=
    snd (Tracker.byte_update echo (Tracker.BYTETracker echo)
           (map Tracker.format_det (Tracker.detect echo frame))) in
  (exists t,
     tracks = [t] /\
     Tracker.centre (Tracker.tlwh t) = (Float.of_Z 0, Float.of_Z 0) /\
     Tracker.centre box = (Float.of_bits mx (-47), Float.of_bits (2 * my) (-47)) /\
     mx * mx + (2 * my) * (2 * my) < (100 * 2 ^ 47) * (100 * 2 ^ 47) /\
     distance echo box t = Float.of_Z 100) /\
  Tracker.tracking_active (fst (Tracker.init echo byte_tracker frame box)) = false.
Proof.
  cbv zeta. split.
  - eexists. split; [reflexivity|]. repeat split; vm_compute; reflexivity.
  - vm_compute. reflexivity.
Qed.

(** C8 (amended): in the identity-lock (BYTE) backend, [init] without a
    detector ends inactive.  With a detector whose pass returns at least
    one detection, it selects among the tracks of that pass the first of
    those whose computed distance to the centroid of the requested box is
    least, and accepts it if and only if that computed distance is strictly
    below 100, remembering its identity, staying active and printing the
    lock; otherwise tracking becomes inactive, the remembered identity is
    left as it was and the failure is printed.  The computed distance is
    the float the code's expression yields, rounded at every operation;
    a distance that is not a number is never selected. *)
Theorem identity_lock_selects_closest_below_radius
    (C : Tracker.Collaborators) (self : Tracker.ObjectTracker C)
    (frame : Tracker.Frame C) (box : Tracker.Box) :
  Tracker.tracker_type self = "BYTE"%string ->
  let tracks :=
    snd (Tracker.byte_update C (Tracker.BYTETracker C)
           (map Tracker.format_det (Tracker.detect C frame))) in
  let self' := fst (Tracker.init C self frame box) in
  let msgs := snd (Tracker.init C self frame box) in
  (Tracker.has_detector self = false ->
   Tracker.tracking_active self' = false /\
   Tracker.tracked_id self' = Tracker.tracked_id self /\
   In Tracker.RequiresDetector msgs) /\
  (Tracker.has_detector self = true ->
   Tracker.detect C frame <> [] ->
   (Tracker.tracking_active self' = true <->
    exists t, In t tracks /\ Float.ltb (distance C box t) radius = true) /\
   (Tracker.tracking_active self' = true ->
    exists pre t post,
      tracks = pre ++ t :: post /\
      Tracker.tracked_id self' = Some (Tracker.track_id t) /\
      (forall t', In t' tracks ->
         distance C box t' = Float.nan \/
         Float.leb (distance C box t) (distance C box t') = true) /\
      (forall t', In t' pre ->
         Float.leb (distance C box t') (distance C box t) = false) /\
      Float.ltb (distance C box t) radius = true /\
      In (Tracker.LockedOnID (Tracker.track_id t)) msgs) /\
   (Tracker.tracking_active self' = false ->
    Tracker.tracked_id self' = Tracker.tracked_id self /\
    In Tracker.CouldNotMatch msgs)).
Proof.
  intros Hty tracks self' msgs. split.
  { intros Hdet. exact (init_byte_no_detector C box self frame Hty Hdet). }
  intros Hdet Hne.
  pose proof (init_byte C box self frame Hty Hdet Hne) as H.
  cbv zeta in H. fold tracks self' msgs in H.
  destruct (selected_all C box tracks) as [Hmin Hbest].
  destruct (fold_left (Tracker.select_step C (Tracker.centre box)) tracks
              (Float.inf, None)) as [min_dist best_id].
  cbn [fst] in Hmin.
  destruct Hbest as [[= -> ->]|(pre & t & post & Hsplit & [= -> ->] & Hinf & Hpre)].
  - (* no distance below infinity *)
    destruct H as (Hact & Hid & Hmsg). rewrite Hact.
    split; [|split; [discriminate | auto]].
    split; [discriminate|]. intros (t & Hin & Hlt). exfalso.
    pose proof (Hmin t Hin) as Hfar.
    rewrite (float_ltb_trans _ _ _ Hlt radius_below_inf) in Hfar.
    discriminate.
  - destruct (float_ltb_not_nan _ _ Hinf) as [Hnum _].
    destruct (Float.ltb (distance C box t) radius) eqn:E;
      destruct H as (Hact & Hid & Hmsg); rewrite Hact.
    + split; [|split; [|discriminate]].
      * split; [|reflexivity]. intros _. exists t. split; [|exact E].
        rewrite Hsplit. apply in_or_app. right. now left.
      * intros _. exists pre, t, post.
        split; [exact Hsplit|]. split; [exact Hid|]. split; [|auto].
        intros t' Hin.
        destruct (float_nan_dec (distance C box t')) as [Hnan|Hnum']; [now left|].
        right. apply float_ltb_total; auto.
    + split; [|split; [discriminate | auto]].
      split; [discriminate|]. intros (t' & Hin & Hlt). exfalso.
      destruct (float_ltb_not_nan _ _ Hlt) as [Hnum' _].
      pose proof (float_ltb_total _ _ Hnum' Hnum (Hmin t' Hin)) as Hle.
      rewrite (float_leb_ltb_trans _ _ _ Hle Hlt) in E. discriminate.
Qed.

Lemma identity_lock_selects_closest_below_radius_witness :
  Tracker.tracker_type byte_tracker = "BYTE"%string /\
  Tracker.has_detector byte_tracker = true /\
  Tracker.detect echo crowd <> [] /\
  (Tracker.tracking_active (fst (Tracker.init echo byte_tracker crowd origin_box))
   = true <->
   exists t,
     In t (snd (Tracker.byte_update echo (Tracker.BYTETracker echo)
                  (map Tracker.format_det (Tracker.detect echo crowd)))) /\
     Float.ltb (distance echo origin_box t) radius = true).
Proof.
  assert (Tracker.detect echo crowd <> []) as Hne by discriminate.
  destruct (identity_lock_selects_closest_below_radius echo byte_tracker
              crowd origin_box eq_refl) as [_ H].
  destruct (H eq_refl Hne) as (Hiff & _).
  split; [reflexivity|]. split; [reflexivity|]. split; [exact Hne | exact Hiff].
Defined.

(** The two scenarios of the specification: candidates at 5, 60 and 150 px
    lock the 5 px identity (here number 2); candidates at 150 and 200 px
    only leave the tracker inactive. *)
Lemma selection_scenarios :
  (let r := Tracker.init echo byte_tracker crowd origin_box in
   Tracker.tracking_active (fst r) = true /\
   Tracker.tracked_id (fst r) = Some 2%Z) /\
  (let r := Tracker.init echo byte_tracker
              [person_at 150 0; person_at 0 200] origin_box in
   Tracker.tracking_active (fst r) = false /\
   Tracker.tracked_id (fst r) = None).
Proof. vm_compute. repeat split. Qed.

(** With a detector that reports nothing, neither branch under
    [if formatted_dets:] runs: the flag set at the top of [init] stays. *)
Lemma init_without_detections_stays_active :
  Tracker.tracking_active
    (fst (Tracker.init echo byte_tracker [] origin_box)) = true /\
  Tracker.tracked_id
    (fst (Tracker.init echo byte_tracker [] origin_box)) = None.
Proof. vm_compute. split; reflexivity. Qed.

(* ================================================================== *)
(** * Further properties of the protocol engine                         *)
(* ================================================================== *)

(** X1: the checksum of any byte string is a 16-bit value, so packing it
    with [struct.pack('<H', crc16)] in [build_packet] never raises. *)
Theorem checksum_fits_16_bits (data : list byte) :
  0 <= _calculate_crc16 data < 65536 /\
  exists tail, pack_H (_calculate_crc16 data) = Ret tail /\ List.length tail = 2%nat.
Proof.
  pose proof (crc16_range data) as H. split; [exact H|].
  destruct (pack_H_ok _ H) as [tail Ht]. exists tail. split; [exact Ht|].
  now apply unpack_pack_H in Ht.
Qed.

(** X2: two byte strings that differ in exactly one byte, whatever comes
    before and after it, have different checksums. *)
Theorem checksum_detects_byte_substitution (pre post : list byte) (x y : byte) :
  x <> y ->
  _calculate_crc16 (pre ++ x :: post) <> _calculate_crc16 (pre ++ y :: post).
Proof. apply crc16_one_byte. Qed.

Lemma checksum_detects_byte_substitution_witness :
  _calculate_crc16 ([x55; x66] ++ x01 :: [x00; x07])
  <> _calculate_crc16 ([x55; x66] ++ xff :: [x00; x07]).
Proof.
  apply (checksum_detects_byte_substitution [x55; x66] [x00; x07] x01 xff).
  discriminate.
Defined.

(** X3: on a session object the program can hold, [build_packet] raises
    [struct.error] exactly when the command id is outside 0..255 or the
    payload is longer than 65535 bytes; a packet it returns is 10 bytes
    longer than the payload; and the sequence counter advances by one
    (modulo 65536) in either case: a failed build still consumes a number. *)
Theorem build_packet_raises_exactly (self : SIYIProtocol) (cmd : Z)
    (payload : list byte) (need_ack : bool) :
  session_ok self ->
  (snd (build_packet self cmd payload need_ack) = Raise StructError <->
   ~ (0 <= cmd <= 255 /\ len payload <= 65535)) /\
  (forall pkt, snd (build_packet self cmd payload need_ack) = Ret pkt ->
               len pkt = len payload + 10) /\
  sequence (fst (build_packet self cmd payload need_ack))
  = (sequence self + 1) mod 65536.
Proof.
  intros Hs. split; [|split; [|reflexivity]].
  - split.
    + intros Hr [Hc Hd].
      destruct (build_packet_eq self cmd payload need_ack Hs Hc Hd) as [tail [_ Hb]].
      rewrite Hb in Hr. discriminate Hr.
    + intros Hn. unfold build_packet, _get_next_sequence. cbn [snd].
      rewrite pack_header.
      destruct (_ && _) eqn:E; [|reflexivity]. exfalso. apply Hn.
      apply andb_true_iff in E. destruct E as [E Hcmd].
      apply andb_true_iff in E. destruct E as [E _].
      apply andb_true_iff in E. destruct E as [_ Hlen].
      apply leb_range_inv in Hcmd, Hlen. lia.
  - intros pkt Hp.
    destruct (build_packet self cmd payload need_ack) as [s' r] eqn:E.
    cbn [snd] in Hp. subst r.
    destruct (built_exact _ _ _ _ _ _ E) as [_ Hlen].
    rewrite Hlen.
    destruct (build_packet_inv _ _ _ _ _ _ E) as (_ & Hc & Hd).
    destruct (build_packet_eq self cmd payload need_ack Hs Hc Hd) as [tail [_ Hb]].
    rewrite Hb in E. injection E as _ <-.
    pose proof (len_nonneg payload).
    unfold data_len_field, u16_at, byte_at, header_bytes. cbn [app nth].
    rewrite u16_roundtrip by (unfold word16; lia). lia.
Qed.

Lemma build_packet_raises_exactly_witness :
  (snd (build_packet Protocol.init 256 [x01] false) = Raise StructError <->
   ~ (0 <= 256 <= 255 /\ len [x01] <= 65535)) /\
  (forall pkt, snd (build_packet Protocol.init 256 [x01] false) = Ret pkt ->
               len pkt = len [x01] + 10) /\
  sequence (fst (build_packet Protocol.init 256 [x01] false))
  = (sequence Protocol.init + 1) mod 65536.
Proof.
  apply (build_packet_raises_exactly Protocol.init 256 [x01] false).
  unfold session_ok, word16. simpl. lia.
Defined.

(** X4: [build_packet] loses nothing: two calls that return the same bytes
    were made with the same command id, payload and [need_ack] flag, on
    sessions whose counters agreed. *)
Theorem build_packet_injective (s1 s2 s1' s2' : SIYIProtocol) (c1 c2 : Z)
    (d1 d2 pkt : list byte) (a1 a2 : bool) :
  build_packet s1 c1 d1 a1 = (s1', Ret pkt) ->
  build_packet s2 c2 d2 a2 = (s2', Ret pkt) ->
  c1 = c2 /\ d1 = d2 /\ a1 = a2 /\ sequence s1 = sequence s2.
Proof.
  intros H1 H2.
  assert (forall s s' c d a,
            build_packet s c d a = (s', Ret pkt) ->
            parse_packet pkt
            = Ret (Some {| ctrl := ctrl_of a; data_len := len d;
                           seq := sequence s; cmd_id := c; data := d;
                           crc16 := _calculate_crc16
                                      (header_bytes (ctrl_of a) (len d) (sequence s) c ++ d) |}))
    as Hparse.
  { intros s s' c d a H.
    destruct (build_packet_inv _ _ _ _ _ _ H) as (Hs & Hc & Hd).
    destruct (build_packet_eq s c d a Hs Hc Hd) as [tail [Ht Hb]].
    rewrite Hb in H. injection H as _ <-.
    apply parse_built; auto.
    destruct a; unfold ctrl_of, CTRL_NEED_ACK, CTRL_ACK_PACK; lia. }
  pose proof (Hparse _ _ _ _ _ H1) as P1.
  pose proof (Hparse _ _ _ _ _ H2) as P2.
  rewrite P1 in P2. injection P2 as Hctrl _ Hseq Hcmd Hdata _.
  repeat split; auto.
  destruct a1, a2; auto; discriminate Hctrl.
Qed.

Lemma build_packet_injective_witness :
  HEARTBEAT = HEARTBEAT /\ [x00] = [x00] /\ false = false /\
  sequence Protocol.init = sequence Protocol.init.
Proof.
  apply (build_packet_injective Protocol.init Protocol.init
           {| sequence := 1 |} {| sequence := 1 |} HEARTBEAT HEARTBEAT
           [x00] [x00]
           [x55; x66; x01; x01; x00; x00; x00; x00; x00; x59; x8b] false false);
    vm_compute; reflexivity.
Defined.

Section ParsedFacts.

Lemma parsed_is_fields (p : list byte) (r : Parsed) :
  parse_packet p = Ret (Some r) -> ~ malformed p /\ r = fields p.
Proof.
  intros H. destruct (malformed_dec p) as [Hm|Hm].
  - rewrite (malformed_rejected p Hm) in H. discriminate H.
  - rewrite (wellformed_accepted p Hm) in H. injection H as <-. now split.
Qed.

Lemma u16_bytes_back (lo hi : byte) :
  Z_to_byte ((byte_to_Z lo + 256 * byte_to_Z hi) mod 256) = lo /\
  Z_to_byte ((byte_to_Z lo + 256 * byte_to_Z hi) / 256) = hi.
Proof.
  pose proof (byte_to_Z_range lo) as Hlo. pose proof (byte_to_Z_range hi) as Hhi.
  assert ((byte_to_Z lo + 256 * byte_to_Z hi) mod 256 = byte_to_Z lo) as ->.
  { symmetry. apply (Z.mod_unique _ 256 (byte_to_Z hi)); lia. }
  assert ((byte_to_Z lo + 256 * byte_to_Z hi) / 256 = byte_to_Z hi) as ->.
  { symmetry. apply (Z.div_unique _ 256 _ (byte_to_Z lo)); lia. }
  split; apply Z_to_byte_to_Z.
Qed.

Lemma firstn_add_skipn {A} (l : list A) :
  forall a b : nat, firstn (a + b) l = firstn a l ++ firstn b (skipn a l).
Proof.
  induction l as [|x l IH]; intros [|a] b; cbn; try reflexivity.
  - now rewrite firstn_nil.
  - now rewrite IH.
Qed.

End ParsedFacts.

(** X5: the dictionary [parse_packet] returns is consistent with the bytes
    it came from: [data_len] is the length of [data], every field is in
    the range of its wire width, [crc16] is the checksum of the header and
    payload bytes, and the input holds at least [data_len + 10] bytes. *)
Theorem parsed_fields_consistent (p : list byte) (r : Parsed) :
  parse_packet p = Ret (Some r) ->
  data_len r = len (data r) /\
  0 <= ctrl r <= 255 /\ 0 <= cmd_id r <= 255 /\
  0 <= seq r <= 65535 /\ 0 <= data_len r <= 65535 /\
  crc16 r = _calculate_crc16 (firstn (Z.to_nat (8 + data_len r)) p) /\
  data_len r + 10 <= len p.
Proof.
  intros H. destruct (parsed_is_fields p r H) as [Hm ->].
  unfold malformed, too_short, bad_marker, truncated, bad_checksum in Hm.
  pose proof (u16_at_range p 3) as Hdl. pose proof (u16_at_range p 5) as Hseq.
  unfold word16 in *.
  pose proof (byte_to_Z_range (nth 2 p x00)) as Hctrl.
  pose proof (byte_to_Z_range (nth 7 p x00)) as Hcmd.
  unfold fields. cbn [data_len data ctrl cmd_id seq crc16].
  unfold ctrl_field, cmd_id_field, seq_field, byte_at.
  fold (data_len_field p) in Hdl.
  repeat split; try lia.
  - unfold payload_field, len. rewrite length_firstn, length_skipn.
    unfold len in Hm. lia.
  - destruct (Z.eq_dec (checksum_field p) (_calculate_crc16 (covered p))) as [E|E];
      [|tauto].
    rewrite E. unfold covered. do 2 f_equal. lia.
Qed.

Lemma parsed_fields_consistent_witness :
  data_len {| ctrl := 1; data_len := 1; seq := 0; cmd_id := 0;
              data := [x00]; crc16 := 0x8b59 |}
  = len (data {| ctrl := 1; data_len := 1; seq := 0; cmd_id := 0;
                 data := [x00]; crc16 := 0x8b59 |}).
Proof.
  apply (parsed_fields_consistent
           [x55; x66; x01; x01; x00; x00; x00; x00; x00; x59; x8b]).
  vm_compute. reflexivity.
Defined.

(** X6: parsing then building gives the bytes back: when [parse_packet]
    succeeds on [p] with control byte 0 or 1, [build_packet] on a session
    whose counter is the parsed sequence number, with the parsed command id
    and payload and [need_ack] set when the control byte is 0, returns the
    first [data_len + 10] bytes of [p]. *)
Theorem build_of_parsed (p : list byte) (r : Parsed) :
  parse_packet p = Ret (Some r) ->
  ctrl r = 0 \/ ctrl r = 1 ->
  snd (build_packet {| sequence := seq r |} (cmd_id r) (data r) (ctrl r =? 0))
  = Ret (firstn (Z.to_nat (data_len r + 10)) p).
Proof.
  intros H Hctrl.
  destruct (Z.lt_ge_cases (len p) 10) as [Hs|Hl];
    [rewrite (parse_packet_short p Hs) in H; discriminate|].
  destruct (split_header p) as (a0 & a1 & c & l0 & l1 & s0 & s1 & cm & rest & ->);
    [lia|].
  rewrite parse_packet_cons in H.
  pose proof (u16_nonneg l0 l1) as Hdl. pose proof (u16_nonneg s0 s1) as Hsq.
  pose proof (byte_to_Z_range cm) as Hcm.
  pose proof (byte_to_Z_range a0) as Ha0. pose proof (byte_to_Z_range a1) as Ha1.
  set (dl := byte_to_Z l0 + 256 * byte_to_Z l1) in *.
  set (sq := byte_to_Z s0 + 256 * byte_to_Z s1) in *.
  destruct (Z.ltb_spec (len rest) 2) as [|H2]; [discriminate|].
  destruct (Z.eqb_spec (byte_to_Z a0 + 256 * byte_to_Z a1) STX) as [Hstx|];
    [|discriminate].
  cbn [negb] in H.
  destruct (Z.ltb_spec (len rest) (dl + 2)) as [|Hfit]; [discriminate|].
  rewrite (firstn2_skipn rest (Z.to_nat dl)) in H by (unfold len in Hfit; lia).
  cbn [unpack_H bind] in H.
  set (t0 := nth (Z.to_nat dl) rest x00) in *.
  set (t1 := nth (S (Z.to_nat dl)) rest x00) in *.
  destruct (Z.eqb_spec (byte_to_Z t0 + 256 * byte_to_Z t1)
              (_calculate_crc16 ([a0; a1; c; l0; l1; s0; s1; cm]
                                 ++ firstn (Z.to_nat dl) rest))) as [Hcrc|];
    [|discriminate].
  cbn [negb] in H. injection H as <-.
  cbn [ctrl seq cmd_id data data_len] in *.
  assert (len (firstn (Z.to_nat dl) rest) = dl) as Hlen
    by (unfold len in *; rewrite length_firstn; lia).
  assert (session_ok {| sequence := sq |}) as Hs
    by (unfold session_ok, word16; cbn [sequence]; lia).
  destruct (build_packet_eq _ (byte_to_Z cm) (firstn (Z.to_nat dl) rest)
              (byte_to_Z c =? 0) Hs) as [tail [Ht Hb]]; [lia | lia |].
  rewrite Hb. cbn [snd sequence] in *. rewrite Hlen in *.
  assert (header_bytes (ctrl_of (byte_to_Z c =? 0)) dl sq (byte_to_Z cm)
          = [a0; a1; c; l0; l1; s0; s1; cm]) as Hhd.
  { unfold header_bytes, dl, sq.
    destruct (u16_bytes_back l0 l1) as [-> ->].
    destruct (u16_bytes_back s0 s1) as [-> ->].
    rewrite Z_to_byte_to_Z.
    assert (a0 = x55 /\ a1 = x66) as [-> ->].
    { unfold STX in Hstx.
      split; apply byte_to_Z_inj;
        [change (byte_to_Z x55) with 85 | change (byte_to_Z x66) with 102]; lia. }
    assert (Z_to_byte (ctrl_of (byte_to_Z c =? 0)) = c) as ->.
    { rewrite <- (Z_to_byte_to_Z c) at 2. f_equal.
      destruct Hctrl as [E|E]; rewrite E; reflexivity. }
    reflexivity. }
  rewrite Hhd in Ht |- *. rewrite <- Hcrc in Ht.
  unfold pack_H in Ht.
  rewrite (leb_range_true 0 65535) in Ht
    by (pose proof (u16_nonneg t0 t1); lia).
  destruct (u16_bytes_back t0 t1) as [E0 E1]. rewrite E0, E1 in Ht.
  injection Ht as <-.
  f_equal. rewrite <- app_assoc. cbn [app]. do 8 f_equal.
  replace (Z.to_nat (dl + 10)) with (8 + (Z.to_nat dl + 2))%nat by lia.
  cbn [firstn Nat.add]. do 8 f_equal.
  rewrite firstn_add_skipn. f_equal.
  symmetry. apply firstn2_skipn. unfold len in Hfit. lia.
Qed.

Lemma build_of_parsed_witness :
  snd (build_packet {| sequence := 0 |} 0 [x00] (1 =? 0))
  = Ret (firstn (Z.to_nat (1 + 10))
           ([x55; x66; x01; x01; x00; x00; x00; x00; x00; x59; x8b] ++ [xde; xad])).
Proof.
  apply (build_of_parsed
           ([x55; x66; x01; x01; x00; x00; x00; x00; x00; x59; x8b] ++ [xde; xad])
           {| ctrl := 1; data_len := 1; seq := 0; cmd_id := 0;
              data := [x00]; crc16 := 0x8b59 |}).
  - vm_compute. reflexivity.
  - right. reflexivity.
Defined.

(* ================================================================== *)
(** * Further properties of the device link                             *)
(* ================================================================== *)

Section LinkFacts.
Import Connection.


(** On a healthy session a call whose arguments fit goes through. *)
Lemma send_packet_healthy (c : SIYIConnection) (cmd : Z) (payload : list byte)
    (need_ack : bool) :
  healthy c -> 0 <= cmd <= 255 -> len payload <= 65535 ->
  exists s tail,
    socket c = Some s /\
    pack_H (_calculate_crc16
              (header_bytes (ctrl_of need_ack) (len payload)
                 (sequence (protocol c)) cmd ++ payload)) = Ret tail /\
    send_packet c cmd payload need_ack
    = ({| protocol := {| sequence := (sequence (protocol c) + 1) mod 65536 |};
          socket :=
            Some {| sent :=
                      sent s ++
                      [(header_bytes (ctrl_of need_ack) (len payload)
                          (sequence (protocol c)) cmd ++ payload) ++ tail];
                    broken := false |};
          connected := true |}, true).
Proof.
  intros (Hc & Hs & s & Es & Hb) Hcmd Hlen.
  destruct (build_packet_eq (protocol c) cmd payload need_ack Hs Hcmd Hlen)
    as [tail [Ht Hbuild]].
  exists s, tail. split; [exact Es|]. split; [exact Ht|].
  unfold send_packet. rewrite Es, Hc. cbn [negb]. rewrite Hbuild.
  unfold sendall. rewrite Hb. unfold with_link. now rewrite Hc.
Qed.

End LinkFacts.

(** X7: on an open session with a working socket, [send_packet] with a
    command id in 0..255 and a payload of at most 65535 bytes returns
    [True], hands exactly one packet to the socket, and advances the
    sequence counter by one; that packet parses back to the command id and
    payload that were sent, with the counter's previous value as its
    sequence number, and the session stays healthy. *)
Theorem send_packet_writes_one_packet (c : Connection.SIYIConnection) (cmd : Z)
    (payload : list byte) (need_ack : bool) :
  healthy c -> 0 <= cmd <= 255 -> len payload <= 65535 ->
  exists c' pkt r,
    Connection.send_packet c cmd payload need_ack = (c', true) /\
    log c' = log c ++ [pkt] /\
    sequence (Connection.protocol c')
    = (sequence (Connection.protocol c) + 1) mod 65536 /\
    parse_packet pkt = Ret (Some r) /\
    cmd_id r = cmd /\ data r = payload /\
    seq r = sequence (Connection.protocol c) /\
    ctrl r = ctrl_of need_ack /\
    healthy c'.
Proof.
  intros Hh Hcmd Hlen.
  destruct (send_packet_healthy c cmd payload need_ack Hh Hcmd Hlen)
    as (s & tail & Es & Ht & Hsend).
  destruct Hh as (Hc & Hs & _).
  eexists. eexists. eexists. split; [exact Hsend|].
  split; [unfold log; cbn; now rewrite Es|].
  split; [reflexivity|].
  split.
  - apply parse_built; auto.
    destruct need_ack; unfold ctrl_of, CTRL_NEED_ACK, CTRL_ACK_PACK; lia.
  - cbn [cmd_id data seq ctrl]. do 4 (split; [reflexivity|]).
    unfold healthy.
    cbn [Connection.connected Connection.protocol Connection.socket].
    split; [reflexivity|]. split.
    + unfold session_ok, word16. cbn [sequence]. apply Z.mod_pos_bound. lia.
    + eexists. split; reflexivity.
Qed.

Lemma send_packet_writes_one_packet_witness :
  exists c' pkt r,
    Connection.send_packet
      (Sdk.connection (Gimbal.sdk online_controller)) CENTER [x01] false
    = (c', true) /\
    log c' = log (Sdk.connection (Gimbal.sdk online_controller)) ++ [pkt] /\
    sequence (Connection.protocol c')
    = (sequence (Connection.protocol
                   (Sdk.connection (Gimbal.sdk online_controller))) + 1)
      mod 65536 /\
    parse_packet pkt = Ret (Some r) /\
    cmd_id r = CENTER /\ data r = [x01] /\
    seq r = sequence (Connection.protocol
                        (Sdk.connection (Gimbal.sdk online_controller))) /\
    ctrl r = ctrl_of false /\
    healthy c'.
Proof.
  apply (send_packet_writes_one_packet
           (Sdk.connection (Gimbal.sdk online_controller)) CENTER [x01] false).
  - split; [reflexivity|]. split.
    + unfold session_ok, word16. simpl. lia.
    + eexists. split; reflexivity.
  - unfold CENTER. lia.
  - unfold len. simpl. lia.
Defined.





(* ================================================================== *)
(** * Further properties of the command facade                          *)
(* ================================================================== *)

Section RotateFacts.

Lemma signed_byte_of_mod (v : Z) :
  -128 <= v <= 127 -> signed_byte (Z_to_byte (v mod 256)) = v.
Proof.
  intros Hv. unfold signed_byte.
  rewrite byte_to_Z_to_byte by (apply Z.mod_pos_bound; lia).
  destruct (Z.le_gt_cases 0 v) as [Hpos|Hneg].
  - rewrite Z.mod_small by lia.
    destruct (Z.ltb_spec v 128); lia.
  - assert (v mod 256 = v + 256) as ->
      by (symmetry; apply (Z.mod_unique _ 256 (-1)); lia).
    destruct (Z.ltb_spec (v + 256) 128); lia.
Qed.

Lemma clamp100_range (v : Z) : -100 <= clamp100 v <= 100.
Proof. unfold clamp100. lia. Qed.

Lemma pack_bb_clamp100 (yaw pitch : Z) :
  pack_bb (clamp100 yaw) (clamp100 pitch)
  = Ret [Z_to_byte (clamp100 yaw mod 256); Z_to_byte (clamp100 pitch mod 256)].
Proof.
  pose proof (clamp100_range yaw). pose proof (clamp100_range pitch).
  unfold pack_bb, pack_b.
  rewrite (leb_range_true (-128) 127) by lia. cbn [bind].
  rewrite (leb_range_true (-128) 127) by lia. reflexivity.
Qed.

End RotateFacts.

(** X10: [rotate] never raises, whatever the speeds and the state of the
    link: the speeds are clamped to [-100, 100] before
    [struct.pack('bb', ...)], which on its own raises [struct.error] for
    every value outside -128..127. *)
Theorem rotate_never_raises (s : Sdk.SIYISDK) (yaw pitch : Z) :
  (exists s' sent_ok, Sdk.rotate_gimbal s yaw pitch = (s', Ret sent_ok)) /\
  (forall v, v < -128 \/ 127 < v -> pack_b v = Raise StructError).
Proof.
  split; [apply rotate_gimbal_returns|].
  intros v Hv. unfold pack_b.
  destruct (Z.leb_spec (-128) v), (Z.leb_spec v 127); cbn; try reflexivity; lia.
Qed.

(** X11: on a healthy session [rotate(yaw, pitch)] returns [True] and
    hands the socket exactly one packet; it parses to command id 0x07 with
    a two-byte payload whose bytes, read as signed, are the two speeds
    clamped to [-100, 100]. *)
Theorem rotate_sends_clamped_speeds (s : Sdk.SIYISDK) (yaw pitch : Z) :
  healthy (Sdk.connection s) ->
  exists s' pkt r b1 b2,
    Sdk.rotate_gimbal s yaw pitch = (s', Ret true) /\
    Sdk.device_log s' = Sdk.device_log s ++ [pkt] /\
    parse_packet pkt = Ret (Some r) /\
    cmd_id r = GIMBAL_ROTATION /\
    data r = [b1; b2] /\
    signed_byte b1 = clamp100 yaw /\ signed_byte b2 = clamp100 pitch.
Proof.
  intros Hh. pose proof Hh as (Hc & Hs & _).
  pose proof (clamp100_range yaw) as Hy. pose proof (clamp100_range pitch) as Hp.
  set (payload := [Z_to_byte (clamp100 yaw mod 256);
                   Z_to_byte (clamp100 pitch mod 256)]).
  destruct (send_packet_healthy (Sdk.connection s) GIMBAL_ROTATION payload false Hh)
    as (sock & tail & Es & Ht & Hsend);
    [unfold GIMBAL_ROTATION; lia | unfold len; cbn; lia |].
  unfold Sdk.rotate_gimbal, Sdk.gimbal_rotate.
  fold (clamp100 yaw) (clamp100 pitch). rewrite pack_bb_clamp100.
  fold payload. rewrite Hsend.
  eexists.
  exists ((header_bytes (ctrl_of false) (len payload)
             (sequence (Connection.protocol (Sdk.connection s)))
             GIMBAL_ROTATION ++ payload) ++ tail).
  eexists. exists (Z_to_byte (clamp100 yaw mod 256)).
  exists (Z_to_byte (clamp100 pitch mod 256)).
  split; [reflexivity|].
  split.
  { unfold Sdk.device_log, Sdk.with_connection.
    cbn [Sdk.connection Connection.socket Connection.sent]. now rewrite Es. }
  split.
  - apply parse_built; auto.
    + unfold ctrl_of, CTRL_ACK_PACK. lia.
    + unfold GIMBAL_ROTATION. lia.
    + unfold len, payload. cbn [List.length]. lia.
  - cbn [cmd_id data]. repeat split; try reflexivity;
      apply signed_byte_of_mod; lia.
Qed.

Lemma rotate_sends_clamped_speeds_witness :
  exists s' pkt r b1 b2,
    Sdk.rotate_gimbal (Gimbal.sdk online_controller) 250 (-7) = (s', Ret true) /\
    Sdk.device_log s' = Sdk.device_log (Gimbal.sdk online_controller) ++ [pkt] /\
    parse_packet pkt = Ret (Some r) /\
    cmd_id r = GIMBAL_ROTATION /\
    data r = [b1; b2] /\
    signed_byte b1 = clamp100 250 /\ signed_byte b2 = clamp100 (-7).
Proof.
  apply (rotate_sends_clamped_speeds (Gimbal.sdk online_controller) 250 (-7)).
  split; [reflexivity|]. split.
  - unfold session_ok, word16. simpl. lia.
  - eexists. split; reflexivity.
Defined.

(* ================================================================== *)
(** * Further properties of the PID controller                          *)
(* ================================================================== *)

Section PidBounds.
Import Pid.
Local Open Scope Q_scope.

Lemma py_clamp_bounds (lo hi x : Q) :
  lo <= hi -> lo <= py_max (py_min x hi) lo /\ py_max (py_min x hi) lo <= hi.
Proof.
  intros H. unfold py_max, py_min.
  destruct (Qltb hi x) eqn:E1.
  - destruct (Qltb hi lo) eqn:E2.
    + apply Qltb_lt in E2. exfalso. apply (Qlt_irrefl hi).
      now apply Qlt_le_trans with lo.
    + split; [exact H | apply Qle_refl].
  - apply Qltb_ge in E1. destruct (Qltb x lo) eqn:E2.
    + split; [apply Qle_refl | exact H].
    + apply Qltb_ge in E2. now split.
Qed.

Lemma pid_output_bounds (s : PIDController) (e t : Q) :
  min_out s <= max_out s ->
  min_out s <= snd (update s e t) /\ snd (update s e t) <= max_out s.
Proof.
  intros H. unfold update.
  destruct (update_terms s e t) as [s' tm]. cbn [snd].
  now apply py_clamp_bounds.
Qed.

Lemma update_step (s : PIDController) (e t t0 : Q) :
  last_time s = Some t0 ->
  integral (fst (update s e t)) == integral s + e * (t - t0) /\
  last_time (fst (update s e t)) = Some t.
Proof.
  intros H. unfold update, update_terms. rewrite H. cbn. split; reflexivity.
Qed.

Lemma last_cons {A} (x d : A) (l : list A) : last (x :: l) d = last l x.
Proof.
  revert x d. induction l as [|y l IH]; intros x d; [reflexivity|].
  change (last (x :: y :: l) d) with (last (y :: l) d).
  now rewrite (IH y d), (IH y x).
Qed.

End PidBounds.

(** X12: whenever the configured range is not empty ([min_out <= max_out]),
    the value [update] returns lies within it, for every controller state,
    error and clock reading. *)
Theorem pid_output_within_limits (s : Pid.PIDController) (e t : Q) :
  (Pid.min_out s <= Pid.max_out s)%Q ->
  (Pid.min_out s <= snd (Pid.update s e t))%Q /\
  (snd (Pid.update s e t) <= Pid.max_out s)%Q.
Proof.
  intros H. unfold Pid.update.
  destruct (Pid.update_terms s e t) as [s' tm]. cbn [snd].
  now apply py_clamp_bounds.
Qed.

Lemma pid_output_within_limits_witness :
  (Pid.min_out (Gimbal.pid_yaw offline_controller)
   <= snd (Pid.update (Gimbal.pid_yaw offline_controller) 900 13))%Q /\
  (snd (Pid.update (Gimbal.pid_yaw offline_controller) 900 13)
   <= Pid.max_out (Gimbal.pid_yaw offline_controller))%Q.
Proof.
  apply (pid_output_within_limits (Gimbal.pid_yaw offline_controller) 900 13).
  vm_compute. discriminate.
Defined.

(** X13: a proportional-only controller (Ki = Kd = 0) returns Kp*e clamped
    to the output range, whatever its state and the clock reading: a
    constant error gives a constant output. *)
Theorem proportional_only_output (s : Pid.PIDController) (e t : Q) :
  (Pid.ki s == 0)%Q -> (Pid.kd s == 0)%Q ->
  (snd (Pid.update s e t)
   == clamped (Pid.min_out s) (Pid.max_out s) (Pid.kp s * e))%Q.
Proof.
  intros Hi Hd. unfold Pid.update, Pid.update_terms. cbn [snd Pid.output].
  apply py_clamp_clamped. rewrite Hi.
  destruct (Pid.Qltb 0 _); [rewrite Hd|]; unfold Qdiv; ring.
Qed.

Lemma proportional_only_output_witness :
  (snd (Pid.update (Pid.init (1 # 2) 0 0 Pid.default_limits) 60 13)
   == clamped (Pid.min_out (Pid.init (1 # 2) 0 0 Pid.default_limits))
        (Pid.max_out (Pid.init (1 # 2) 0 0 Pid.default_limits))
        (Pid.kp (Pid.init (1 # 2) 0 0 Pid.default_limits) * 60))%Q.
Proof.
  apply (proportional_only_output (Pid.init (1 # 2) 0 0 Pid.default_limits) 60 13);
    reflexivity.
Defined.

(** X14: the accumulator has no bound of its own: after any number of
    [update(e)] calls with one error value e, on a controller whose last
    call was at time t0, it has grown by e times the time elapsed between
    t0 and the last call. *)
Theorem integral_grows_with_elapsed_time (times : list Q)
    (s : Pid.PIDController) (e t0 : Q) :
  Pid.last_time s = Some t0 ->
  (Pid.integral (update_all s e times)
   == Pid.integral s + e * (last times t0 - t0))%Q.
Proof.
  revert s t0. induction times as [|t times IH]; intros s t0 Hs.
  - cbn. ring.
  - unfold update_all. cbn [fold_left]. fold (update_all (fst (Pid.update s e t)) e times).
    destruct (update_step s e t t0 Hs) as [Hint Hlast].
    rewrite (IH _ t Hlast), Hint, last_cons. ring.
Qed.

Lemma integral_grows_with_elapsed_time_witness :
  (Pid.integral (update_all (Gimbal.pid_yaw offline_controller) 30 [13; 14; 20]%Q)
   == Pid.integral (Gimbal.pid_yaw offline_controller)
      + 30 * (last [13; 14; 20]%Q 12 - 12))%Q.
Proof.
  apply (integral_grows_with_elapsed_time [13; 14; 20]%Q
           (Gimbal.pid_yaw offline_controller) 30 12).
  reflexivity.
Defined.

(* ================================================================== *)
(** * Further properties of the control loop's gimbal operations        *)
(* ================================================================== *)

Section TrackingFacts.
Import Sdk Pid Gimbal.
Local Open Scope Q_scope.

(** [rotate] on a healthy session: the packet and what it parses to. *)
Lemma rotate_gimbal_healthy (s : SIYISDK) (yaw pitch : Z) :
  healthy (connection s) ->
  exists pkt r,
    device_log (fst (rotate_gimbal s yaw pitch)) = device_log s ++ [pkt] /\
    snd (rotate_gimbal s yaw pitch) = Ret true /\
    parse_packet pkt = Ret (Some r) /\
    cmd_id r = GIMBAL_ROTATION /\
    data r = [Z_to_byte (clamp100 yaw mod 256); Z_to_byte (clamp100 pitch mod 256)].
Proof.
  intros Hh. pose proof Hh as (Hc & Hs & _).
  set (payload := [Z_to_byte (clamp100 yaw mod 256);
                   Z_to_byte (clamp100 pitch mod 256)]).
  destruct (send_packet_healthy (connection s) GIMBAL_ROTATION payload false Hh)
    as (sock & tail & Es & Ht & Hsend);
    [unfold GIMBAL_ROTATION; lia | unfold len; cbn; lia |].
  unfold rotate_gimbal, gimbal_rotate.
  fold (clamp100 yaw) (clamp100 pitch). rewrite pack_bb_clamp100.
  fold payload. rewrite Hsend.
  exists ((header_bytes (ctrl_of false) (len payload)
             (sequence (Connection.protocol (connection s)))
             GIMBAL_ROTATION ++ payload) ++ tail).
  eexists. split.
  { unfold device_log, with_connection.
    cbn [fst connection Connection.socket Connection.sent]. now rewrite Es. }
  split; [reflexivity|]. split.
  - apply parse_built; auto.
    + unfold ctrl_of, CTRL_ACK_PACK. lia.
    + unfold GIMBAL_ROTATION. lia.
    + unfold len, payload. cbn [List.length]. lia.
  - split; reflexivity.
Qed.

(** The two axis branches of [update_tracking]. *)
Ltac axis_branches g ex ey clk :=
  destruct (Qltb (deadzone g) (Qabs ex));
    [destruct (update (pid_yaw g) ex (t_yaw clk)) as [?py ?oy]|];
    cbn [set_pid_yaw deadzone pid_pitch fst snd];
    (destruct (Qltb (deadzone g) (Qabs ey));
     [destruct (update (pid_pitch g) (- ey) (t_pitch clk)) as [?pp ?op]|]);
    cbn [set_pid_pitch set_pid_yaw move_interval last_move_time sdk fst snd].

(** Inside the throttle interval nothing is sent. *)
Lemma update_tracking_throttled (g : GimbalController) (ex ey : Q) (clk : Clock) :
  connected g = true ->
  t_now clk - last_move_time g <= move_interval g ->
  exists g' yaw pitch,
    update_tracking g ex ey clk = (g', Ret (Some (yaw, pitch))) /\
    sdk g' = sdk g /\ last_move_time g' = last_move_time g.
Proof.
  intros Hc Hth. apply Qltb_ge in Hth.
  unfold update_tracking. rewrite Hc. cbn [negb].
  axis_branches g ex ey clk; rewrite Hth;
    eexists; eexists; eexists; (split; [reflexivity|]); split; reflexivity.
Qed.

(** Past the throttle interval one [rotate] goes out, with the speeds the
    call returns: the explicit stop is [rotate(0, 0)]. *)
Lemma update_tracking_elapsed (g : GimbalController) (ex ey : Q) (clk : Clock) :
  connected g = true ->
  move_interval g < t_now clk - last_move_time g ->
  exists g' yaw pitch,
    update_tracking g ex ey clk = (g', Ret (Some (yaw, pitch))) /\
    sdk g' = fst (rotate_gimbal (sdk g) yaw pitch) /\
    last_move_time g' = t_now clk.
Proof.
  intros Hc Hth. apply Qltb_lt in Hth.
  unfold update_tracking. rewrite Hc. cbn [negb].
  axis_branches g ex ey clk; rewrite Hth;
    match goal with
    | |- context [negb (?y =? 0)%Z || negb (?p =? 0)%Z] =>
        destruct (Z.eqb_spec y 0) as [Ey|Ey];
        destruct (Z.eqb_spec p 0) as [Ep|Ep];
        cbn [negb orb];
        try (unfold stop; cbn [connected set_pid_yaw set_pid_pitch];
             rewrite Hc; cbn [negb sdk set_pid_yaw set_pid_pitch];
             try rewrite Ey; try rewrite Ep);
        match goal with
        | |- context [rotate_gimbal ?s ?a ?b] =>
            let E := fresh "E" in
            destruct (rotate_gimbal_returns s a b) as (?s' & ?b' & E);
            rewrite E; cbn [bind];
            eexists; eexists; eexists; (split; [reflexivity|]);
            cbn [sdk set_sdk set_last_move_time last_move_time];
            rewrite E; split; reflexivity
        end
    end.
Qed.

Lemma py_int_bounds (q : Q) : -(100) <= q -> q <= 100 -> (-100 <= py_int q <= 100)%Z.
Proof.
  unfold Qle, py_int. destruct q as [n d]. cbn [Qnum Qden]. intros Hlo Hhi.
  change (Qnum (- (100))) with (-100)%Z in Hlo.
  change (QDen (- (100))) with 1%Z in Hlo.
  pose proof (Z.quot_rem' n (Z.pos d)) as Hqr.
  destruct (Z.le_gt_cases 0 n) as [Hn|Hn].
  - pose proof (Z.rem_bound_pos n (Z.pos d) Hn ltac:(lia)). nia.
  - pose proof (Z.rem_bound_pos (- n) (Z.pos d) ltac:(lia) ltac:(lia)).
    pose proof (Z.rem_opp_l' n (Z.pos d)). nia.
Qed.

End TrackingFacts.

(** X15: rotate commands are throttled: while connected, an
    [update_tracking] call made no more than [move_interval] after the last
    command still updates the PID state and returns a pair of speeds, but
    sends nothing and leaves the time of the last command as it was. *)
Theorem update_tracking_is_throttled (g : Gimbal.GimbalController)
    (ex ey : Q) (clk : Gimbal.Clock) :
  Gimbal.connected g = true ->
  (Gimbal.t_now clk - Gimbal.last_move_time g <= Gimbal.move_interval g)%Q ->
  exists g' yaw pitch,
    Gimbal.update_tracking g ex ey clk = (g', Ret (Some (yaw, pitch))) /\
    Gimbal.sdk g' = Gimbal.sdk g /\
    Gimbal.last_move_time g' = Gimbal.last_move_time g.
Proof. apply update_tracking_throttled. Qed.

Lemma update_tracking_is_throttled_witness :
  exists g' yaw pitch,
    Gimbal.update_tracking
      (Gimbal.set_last_move_time online_controller 13) 300 0 noon
    = (g', Ret (Some (yaw, pitch))) /\
    Gimbal.sdk g' = Gimbal.sdk (Gimbal.set_last_move_time online_controller 13) /\
    Gimbal.last_move_time g'
    = Gimbal.last_move_time (Gimbal.set_last_move_time online_controller 13).
Proof.
  apply (update_tracking_is_throttled
           (Gimbal.set_last_move_time online_controller 13) 300 0 noon).
  - reflexivity.
  - vm_compute. discriminate.
Defined.

(** X16: while connected on a healthy session, an [update_tracking] call
    made more than [move_interval] after the last command hands the socket
    exactly one packet: command id 0x07 whose two payload bytes, read as
    signed, are the returned speeds clamped to [-100, 100]; when both
    speeds are 0 this is the explicit stop [rotate(0, 0)], not silence.
    The time of the last command becomes the current reading. *)
Theorem update_tracking_sends_one_rotate (g : Gimbal.GimbalController)
    (ex ey : Q) (clk : Gimbal.Clock) :
  Gimbal.connected g = true ->
  healthy (Sdk.connection (Gimbal.sdk g)) ->
  (Gimbal.move_interval g < Gimbal.t_now clk - Gimbal.last_move_time g)%Q ->
  exists g' yaw pitch pkt r b1 b2,
    Gimbal.update_tracking g ex ey clk = (g', Ret (Some (yaw, pitch))) /\
    Sdk.device_log (Gimbal.sdk g') = Sdk.device_log (Gimbal.sdk g) ++ [pkt] /\
    parse_packet pkt = Ret (Some r) /\
    cmd_id r = GIMBAL_ROTATION /\ data r = [b1; b2] /\
    signed_byte b1 = clamp100 yaw /\ signed_byte b2 = clamp100 pitch /\
    Gimbal.last_move_time g' = Gimbal.t_now clk.
Proof.
  intros Hc Hh Hth.
  destruct (update_tracking_elapsed g ex ey clk Hc Hth)
    as (g' & yaw & pitch & Hu & Hsdk & Hlast).
  destruct (rotate_gimbal_healthy (Gimbal.sdk g) yaw pitch Hh)
    as (pkt & r & Hlog & _ & Hparse & Hcmd & Hdata).
  pose proof (clamp100_range yaw). pose proof (clamp100_range pitch).
  exists g', yaw, pitch, pkt, r.
  exists (Z_to_byte (clamp100 yaw mod 256)), (Z_to_byte (clamp100 pitch mod 256)).
  rewrite Hsdk.
  repeat split; auto; apply signed_byte_of_mod; lia.
Qed.

Lemma update_tracking_sends_one_rotate_witness :
  exists g' yaw pitch pkt r b1 b2,
    Gimbal.update_tracking online_controller 5 (-(3)) noon
    = (g', Ret (Some (yaw, pitch))) /\
    Sdk.device_log (Gimbal.sdk g')
    = Sdk.device_log (Gimbal.sdk online_controller) ++ [pkt] /\
    parse_packet pkt = Ret (Some r) /\
    cmd_id r = GIMBAL_ROTATION /\ data r = [b1; b2] /\
    signed_byte b1 = clamp100 yaw /\ signed_byte b2 = clamp100 pitch /\
    Gimbal.last_move_time g' = Gimbal.t_now noon.
Proof.
  apply (update_tracking_sends_one_rotate online_controller 5 (-(3)) noon).
  - reflexivity.
  - split; [reflexivity|]. split.
    + unfold session_ok, word16. simpl. lia.
    + eexists. split; reflexivity.
  - vm_compute. reflexivity.
Defined.

(** X17: while connected, with both PID output ranges non-empty and inside
    [-100, 100] (the default), the speeds [update_tracking] returns lie in
    -100..100, so the clamp in [rotate] leaves them as they are. *)
Theorem tracking_speeds_within_device_range (g : Gimbal.GimbalController)
    (ex ey : Q) (clk : Gimbal.Clock) :
  Gimbal.connected g = true ->
  (-(100) <= Pid.min_out (Gimbal.pid_yaw g))%Q ->
  (Pid.min_out (Gimbal.pid_yaw g) <= Pid.max_out (Gimbal.pid_yaw g))%Q ->
  (Pid.max_out (Gimbal.pid_yaw g) <= 100)%Q ->
  (-(100) <= Pid.min_out (Gimbal.pid_pitch g))%Q ->
  (Pid.min_out (Gimbal.pid_pitch g) <= Pid.max_out (Gimbal.pid_pitch g))%Q ->
  (Pid.max_out (Gimbal.pid_pitch g) <= 100)%Q ->
  exists g' yaw pitch,
    Gimbal.update_tracking g ex ey clk = (g', Ret (Some (yaw, pitch))) /\
    -100 <= yaw <= 100 /\ -100 <= pitch <= 100 /\
    clamp100 yaw = yaw /\ clamp100 pitch = pitch.
Proof.
  intros Hc Hy1 Hy2 Hy3 Hp1 Hp2 Hp3.
  destruct (update_tracking_connected g ex ey clk Hc)
    as (g' & yaw & pitch & Hu & _ & _ & Hyaw & Hpitch & _).
  exists g', yaw, pitch. split; [exact Hu|].
  assert (-100 <= yaw <= 100) as Hyb.
  { destruct (Pid.Qltb (Gimbal.deadzone g) (Qabs ex)).
    - assert (yaw = Gimbal.py_int
                      (snd (Pid.update (Gimbal.pid_yaw g) ex (Gimbal.t_yaw clk))))
        as -> by congruence.
      destruct (pid_output_bounds (Gimbal.pid_yaw g) ex (Gimbal.t_yaw clk) Hy2).
      apply py_int_bounds;
        [apply Qle_trans with (Pid.min_out (Gimbal.pid_yaw g))
        |apply Qle_trans with (Pid.max_out (Gimbal.pid_yaw g))]; assumption.
    - assert (yaw = 0) as -> by congruence. lia. }
  assert (-100 <= pitch <= 100) as Hpb.
  { destruct (Pid.Qltb (Gimbal.deadzone g) (Qabs ey)).
    - assert (pitch = Gimbal.py_int
                        (snd (Pid.update (Gimbal.pid_pitch g) (- ey)
                                (Gimbal.t_pitch clk))))
        as -> by congruence.
      destruct (pid_output_bounds (Gimbal.pid_pitch g) (- ey) (Gimbal.t_pitch clk) Hp2).
      apply py_int_bounds;
        [apply Qle_trans with (Pid.min_out (Gimbal.pid_pitch g))
        |apply Qle_trans with (Pid.max_out (Gimbal.pid_pitch g))]; assumption.
    - assert (pitch = 0) as -> by congruence. lia. }
  unfold clamp100. repeat split; lia.
Qed.

Lemma tracking_speeds_within_device_range_witness :
  exists g' yaw pitch,
    Gimbal.update_tracking online_controller 900 (-(900)) noon
    = (g', Ret (Some (yaw, pitch))) /\
    -100 <= yaw <= 100 /\ -100 <= pitch <= 100 /\
    clamp100 yaw = yaw /\ clamp100 pitch = pitch.
Proof.
  apply (tracking_speeds_within_device_range online_controller 900 (-(900)) noon);
    try reflexivity; vm_compute; discriminate.
Defined.

(** X18: while connected, [center] never raises and resets both PID
    controllers whether or not the command could be sent; on a healthy
    session it hands the socket one packet with command id 0x08 and
    payload [01], and with the link down it writes nothing. *)
Theorem center_resets_both_axes (g : Gimbal.GimbalController) :
  Gimbal.connected g = true ->
  exists g',
    Gimbal.center g = (g', Ret tt) /\
    Gimbal.pid_yaw g' = Pid.reset (Gimbal.pid_yaw g) /\
    Gimbal.pid_pitch g' = Pid.reset (Gimbal.pid_pitch g) /\
    (healthy (Sdk.connection (Gimbal.sdk g)) ->
     exists pkt r,
       Sdk.device_log (Gimbal.sdk g') = Sdk.device_log (Gimbal.sdk g) ++ [pkt] /\
       parse_packet pkt = Ret (Some r) /\ cmd_id r = CENTER /\ data r = [x01]) /\
    (link_down (Sdk.connection (Gimbal.sdk g)) -> Gimbal.sdk g' = Gimbal.sdk g).
Proof.
  intros Hc. unfold Gimbal.center. rewrite Hc. cbn [negb].
  destruct (Sdk.center_gimbal (Gimbal.sdk g)) as [s' b] eqn:E.
  eexists. split; [reflexivity|].
  cbn [Gimbal.pid_yaw Gimbal.pid_pitch Gimbal.sdk Gimbal.set_sdk
       Gimbal.set_pid_yaw Gimbal.set_pid_pitch].
  split; [reflexivity|]. split; [reflexivity|]. split.
  - intros Hh. pose proof Hh as (_ & Hs & _).
    destruct (send_packet_healthy (Sdk.connection (Gimbal.sdk g)) CENTER [x01] false Hh)
      as (sock & tail & Es & Ht & Hsend);
      [unfold CENTER; lia | unfold len; cbn; lia |].
    unfold Sdk.center_gimbal, Sdk.gimbal_center in E. rewrite Hsend in E.
    injection E as <- _.
    exists ((header_bytes (ctrl_of false) (len [x01])
               (sequence (Connection.protocol (Sdk.connection (Gimbal.sdk g))))
               CENTER ++ [x01]) ++ tail).
    eexists. split.
    { unfold Sdk.device_log, Sdk.with_connection.
      cbn [Sdk.connection Connection.socket Connection.sent]. now rewrite Es. }
    split.
    + apply parse_built; auto.
      * unfold ctrl_of, CTRL_ACK_PACK. lia.
      * unfold CENTER. lia.
      * unfold len. cbn [List.length]. lia.
    + split; reflexivity.
  - intros Hd. rewrite (center_gimbal_link_down _ Hd) in E. now injection E.
Qed.

Lemma center_resets_both_axes_witness :
  exists g',
    Gimbal.center online_controller = (g', Ret tt) /\
    Gimbal.pid_yaw g' = Pid.reset (Gimbal.pid_yaw online_controller) /\
    Gimbal.pid_pitch g' = Pid.reset (Gimbal.pid_pitch online_controller) /\
    (healthy (Sdk.connection (Gimbal.sdk online_controller)) ->
     exists pkt r,
       Sdk.device_log (Gimbal.sdk g')
       = Sdk.device_log (Gimbal.sdk online_controller) ++ [pkt] /\
       parse_packet pkt = Ret (Some r) /\ cmd_id r = CENTER /\ data r = [x01]) /\
    (link_down (Sdk.connection (Gimbal.sdk online_controller)) ->
     Gimbal.sdk g' = Gimbal.sdk online_controller).
Proof.
  apply (center_resets_both_axes online_controller). reflexivity.
Defined.

(* ================================================================== *)
(** * Further properties of the target tracker                          *)
(* ================================================================== *)

Section TrackerFacts.
Import Tracker TrackerUpdate.

Lemma find_first {A} (f : A -> bool) (l : list A) (x : A) :
  find f l = Some x ->
  exists pre post,
    l = pre ++ x :: post /\ f x = true /\ forall y, In y pre -> f y = false.
Proof.
  induction l as [|a l IH]; [discriminate|]. cbn [find].
  destruct (f a) eqn:Ea.
  - intros [= ->]. exists [], l. repeat split; auto. intros y [].
  - intros H. destruct (IH H) as (pre & post & -> & Hx & Hpre).
    exists (a :: pre), post. repeat split; auto.
    intros y [<-|Hy]; auto.
Qed.

Lemma byte_is_not_visual (ty : string) :
  ty <> "BYTE"%string -> String.eqb ty "BYTE" = false.
Proof. intros H. now apply String.eqb_neq. Qed.

End TrackerFacts.

(** X19: [init] in the BYTE backend without usable detections.  Without a
    detector it ends inactive, keeps the remembered identity and prints the
    error; with a detector that reports nothing for the frame, neither
    outcome branch runs: the tracker stays active with a fresh identity
    tracker, the remembered identity is left as it was, and only the final
    message is printed. *)
Theorem init_byte_without_detections (C : Tracker.Collaborators)
    (self : Tracker.ObjectTracker C) (frame : Tracker.Frame C)
    (box : Tracker.Box) :
  Tracker.tracker_type self = "BYTE"%string ->
  (Tracker.has_detector self = false ->
   Tracker.tracking_active (fst (Tracker.init C self frame box)) = false /\
   Tracker.tracked_id (fst (Tracker.init C self frame box))
   = Tracker.tracked_id self /\
   snd (Tracker.init C self frame box)
   = [Tracker.RequiresDetector; Tracker.Initialized "BYTE"]) /\
  (Tracker.has_detector self = true -> Tracker.detect C frame = [] ->
   Tracker.tracking_active (fst (Tracker.init C self frame box)) = true /\
   Tracker.tracked_id (fst (Tracker.init C self frame box))
   = Tracker.tracked_id self /\
   Tracker.tracker (fst (Tracker.init C self frame box))
   = Some (Tracker.Byte C (Tracker.BYTETracker C)) /\
   snd (Tracker.init C self frame box) = [Tracker.Initialized "BYTE"]).
Proof.
  intros Hty. split.
  - intros Hdet. unfold Tracker.init, Tracker._create_tracker.
    cbn [Tracker.tracker_type Tracker.set_tracker Tracker.set_tracking_active
         Tracker.has_detector].
    rewrite Hty, Hdet. cbn. rewrite Hty. auto.
  - intros Hdet Hnone. unfold Tracker.init, Tracker._create_tracker.
    cbn [Tracker.tracker_type Tracker.set_tracker Tracker.set_tracking_active
         Tracker.has_detector].
    rewrite Hty, Hdet, Hnone. cbn. rewrite Hty. auto.
Qed.

Lemma init_byte_without_detections_witness :
  Tracker.tracking_active (fst (Tracker.init echo byte_tracker [] origin_box))
  = true /\
  Tracker.tracked_id (fst (Tracker.init echo byte_tracker [] origin_box))
  = Tracker.tracked_id byte_tracker /\
  Tracker.tracker (fst (Tracker.init echo byte_tracker [] origin_box))
  = Some (Tracker.Byte echo (Tracker.BYTETracker echo)) /\
  snd (Tracker.init echo byte_tracker [] origin_box) = [Tracker.Initialized "BYTE"].
Proof.
  destruct (init_byte_without_detections echo byte_tracker [] origin_box)
    as [_ H]; [reflexivity|].
  apply H; reflexivity.
Defined.

(** X20: [init] with any tracker type other than BYTE runs no detection:
    it creates the OpenCV tracker named by the type (KCF, MOSSE, and CSRT
    for "CSRT" and for every unknown name), seeds it with the frame and
    the box, ends active and leaves the remembered identity as it was. *)
Theorem init_visual_tracker (C : Tracker.Collaborators)
    (self : Tracker.ObjectTracker C) (frame : Tracker.Frame C)
    (box : Tracker.Box) :
  Tracker.tracker_type self <> "BYTE"%string ->
  Tracker.tracking_active (fst (Tracker.init C self frame box)) = true /\
  Tracker.tracked_id (fst (Tracker.init C self frame box))
  = Tracker.tracked_id self /\
  Tracker.tracker (fst (Tracker.init C self frame box))
  = Some (Tracker.Cv C
            (Tracker.cv_init C
               (if String.eqb (Tracker.tracker_type self) "KCF"
                then Tracker.TrackerKCF_create C
                else if String.eqb (Tracker.tracker_type self) "MOSSE"
                then Tracker.TrackerMOSSE_create C
                else Tracker.TrackerCSRT_create C)
               frame box)) /\
  snd (Tracker.init C self frame box)
  = [Tracker.Initialized (Tracker.tracker_type self)].
Proof.
  intros Hty. apply byte_is_not_visual in Hty.
  unfold Tracker.init, Tracker._create_tracker.
  cbn [Tracker.tracker_type Tracker.set_tracker Tracker.set_tracking_active
       Tracker.has_detector].
  rewrite Hty.
  destruct (String.eqb (Tracker.tracker_type self) "CSRT") eqn:E1.
  - apply String.eqb_eq in E1. rewrite E1. cbn. rewrite ?E1. auto.
  - destruct (String.eqb (Tracker.tracker_type self) "KCF"); [cbn; auto|].
    destruct (String.eqb (Tracker.tracker_type self) "MOSSE"); cbn; auto.
Qed.

Lemma init_visual_tracker_witness :
  Tracker.tracking_active
    (fst (Tracker.init echo (Tracker.new echo "GOTURN" false) crowd origin_box))
  = true /\
  Tracker.tracked_id
    (fst (Tracker.init echo (Tracker.new echo "GOTURN" false) crowd origin_box))
  = Tracker.tracked_id (Tracker.new echo "GOTURN" false) /\
  Tracker.tracker
    (fst (Tracker.init echo (Tracker.new echo "GOTURN" false) crowd origin_box))
  = Some (Tracker.Cv echo
            (Tracker.cv_init echo
               (if String.eqb
                     (Tracker.tracker_type (Tracker.new echo "GOTURN" false)) "KCF"
                then Tracker.TrackerKCF_create echo
                else if String.eqb
                          (Tracker.tracker_type (Tracker.new echo "GOTURN" false))
                          "MOSSE"
                then Tracker.TrackerMOSSE_create echo
                else Tracker.TrackerCSRT_create echo)
               crowd origin_box)) /\
  snd (Tracker.init echo (Tracker.new echo "GOTURN" false) crowd origin_box)
  = [Tracker.Initialized (Tracker.tracker_type (Tracker.new echo "GOTURN" false))].
Proof.
  apply (init_visual_tracker echo (Tracker.new echo "GOTURN" false) crowd origin_box).
  discriminate.
Defined.

(** X21: [update] on a tracker that is not active, or has no tracker
    object, returns [(False, None)] and changes nothing; in particular this
    is what every [update] after [stop()] does, and [stop()] twice is
    [stop()] once. *)
Theorem update_when_idle (C : Tracker.Collaborators)
    (cv_update : Tracker.Cv_state C -> Tracker.Frame C ->
                 Tracker.Cv_state C * (bool * Tracker.Box))
    (self : Tracker.ObjectTracker C) (frame : Tracker.Frame C) :
  (Tracker.tracking_active self = false \/ Tracker.tracker self = None ->
   TrackerUpdate.update C cv_update self frame
   = TrackerUpdate.Returned self false None) /\
  TrackerUpdate.update C cv_update (Tracker.stop C self) frame
  = TrackerUpdate.Returned (Tracker.stop C self) false None /\
  Tracker.stop C (Tracker.stop C self) = Tracker.stop C self.
Proof.
  split; [|split; reflexivity].
  intros [H|H]; unfold TrackerUpdate.update; rewrite H; [reflexivity|].
  now destruct (Tracker.tracking_active self).
Qed.

(** X22: [update] in the BYTE backend on an active tracker, with a detector
    that reports at least one detection: the identity tracker is fed the
    formatted detections; the call succeeds exactly when one of the tracks
    it returns carries the remembered identity, and then returns the box
    of the first such track; whether or not the identity is found, the
    tracker stays active and keeps the identity. *)
Theorem update_byte_reports_locked_track (C : Tracker.Collaborators)
    (cv_update : Tracker.Cv_state C -> Tracker.Frame C ->
                 Tracker.Cv_state C * (bool * Tracker.Box))
    (self : Tracker.ObjectTracker C) (frame : Tracker.Frame C)
    (t : Tracker.Byte_state C) :
  Tracker.tracker_type self = "BYTE"%string ->
  Tracker.tracking_active self = true ->
  Tracker.has_detector self = true ->
  Tracker.tracker self = Some (Tracker.Byte C t) ->
  Tracker.detect C frame <> [] ->
  let fed := Tracker.byte_update C t
               (map Tracker.format_det (Tracker.detect C frame)) in
  exists self' success bbox,
    TrackerUpdate.update C cv_update self frame
    = TrackerUpdate.Returned self' success bbox /\
    Tracker.tracking_active self' = true /\
    Tracker.tracked_id self' = Tracker.tracked_id self /\
    Tracker.tracker self' = Some (Tracker.Byte C (fst fed)) /\
    (success = true <->
     exists id tr, Tracker.tracked_id self = Some id /\ In tr (snd fed) /\
                   Tracker.track_id tr = id) /\
    (success = false -> bbox = None) /\
    (success = true ->
     exists id pre tr post,
       Tracker.tracked_id self = Some id /\
       snd fed = pre ++ tr :: post /\
       Tracker.track_id tr = id /\ bbox = Some (Tracker.tlwh tr) /\
       forall other, In other pre -> Tracker.track_id other <> id).
Proof.
  intros Hty Hact Hdet Htr Hne fed. unfold TrackerUpdate.update.
  rewrite Hty, Hact, Hdet, Htr. cbn [String.eqb Ascii.eqb Bool.eqb andb].
  unfold fed. clear fed.
  destruct (Tracker.detect C frame) as [|d ds]; [congruence|].
  destruct (Tracker.byte_update C t (map Tracker.format_det (d :: ds)))
    as [t' tracks].
  cbn [fst snd Tracker.tracked_id Tracker.set_tracker].
  destruct (find (TrackerUpdate.is_locked (Tracker.tracked_id self)) tracks)
    as [tr|] eqn:Ef.
  - destruct (find_first _ _ _ Ef) as (pre & post & Hsplit & Hlock & Hpre).
    unfold TrackerUpdate.is_locked in Hlock, Hpre.
    destruct (Tracker.tracked_id self) as [id|] eqn:Eid; [|discriminate].
    apply Z.eqb_eq in Hlock.
    eexists. eexists. eexists. split; [reflexivity|].
    cbn [Tracker.tracking_active Tracker.tracked_id Tracker.tracker
         Tracker.set_tracker].
    rewrite ?Eid.
    repeat split; auto; try discriminate.
    + intros _. exists id, tr. repeat split; auto.
      rewrite Hsplit. apply in_or_app. right. now left.
    + intros _. exists id, pre, tr, post. repeat split; auto.
      intros other Ho. apply Z.eqb_neq. now apply Hpre.
  - eexists. eexists. eexists. split; [reflexivity|].
    cbn [Tracker.tracking_active Tracker.tracked_id Tracker.tracker
         Tracker.set_tracker].
    repeat split; auto; try discriminate.
    intros (id & tr & Hid & Hin & Htid). exfalso.
    pose proof (find_none _ _ Ef tr Hin) as Hn.
    unfold TrackerUpdate.is_locked in Hn. rewrite Hid in Hn.
    apply Z.eqb_neq in Hn. contradiction.
Qed.

Lemma update_byte_reports_locked_track_witness :
  exists self' success bbox,
    TrackerUpdate.update echo echo_cv_update (started "BYTE") crowd
    = TrackerUpdate.Returned self' success bbox /\
    Tracker.tracking_active self' = true /\
    Tracker.tracked_id self' = Tracker.tracked_id (started "BYTE") /\
    success = true.
Proof.
  assert (Tracker.detect echo crowd <> []) as Hne by discriminate.
  destruct (update_byte_reports_locked_track echo echo_cv_update
              (started "BYTE") crowd tt eq_refl eq_refl eq_refl eq_refl Hne)
    as (self' & success & bbox & Hu & Hact & Hid & _ & Hiff & _).
  exists self', success, bbox.
  split; [exact Hu|]. split; [exact Hact|]. split; [exact Hid|].
  apply Hiff.
  exists 2, {| Tracker.track_id := 2; Tracker.tlwh := Tracker.bbox (person_at 3 4) |}.
  split; [reflexivity|]. split; [|reflexivity].
  vm_compute. right. left. reflexivity.
Defined.

(** X23: [update] in the BYTE backend on an active tracker without a
    detector, or with a detector that reports nothing for the frame,
    returns [(False, None)] and changes nothing: the tracker stays active
    and the identity tracker is not fed, so it does not age. *)
Theorem update_byte_without_detections (C : Tracker.Collaborators)
    (cv_update : Tracker.Cv_state C -> Tracker.Frame C ->
                 Tracker.Cv_state C * (bool * Tracker.Box))
    (self : Tracker.ObjectTracker C) (frame : Tracker.Frame C) :
  Tracker.tracker_type self = "BYTE"%string ->
  Tracker.has_detector self = false \/ Tracker.detect C frame = [] ->
  TrackerUpdate.update C cv_update self frame
  = TrackerUpdate.Returned self false None.
Proof.
  intros Hty Hno. unfold TrackerUpdate.update. rewrite Hty.
  cbn [String.eqb Ascii.eqb Bool.eqb andb].
  destruct (Tracker.tracking_active self); [|reflexivity].
  destruct (Tracker.tracker self) as [h|]; [|reflexivity].
  destruct Hno as [H|H]; rewrite H.
  - reflexivity.
  - now destruct (Tracker.has_detector self).
Qed.

Lemma update_byte_without_detections_witness :
  TrackerUpdate.update echo echo_cv_update (started "BYTE") []
  = TrackerUpdate.Returned (started "BYTE") false None.
Proof.
  apply (update_byte_without_detections echo echo_cv_update (started "BYTE") []).
  - reflexivity.
  - right. reflexivity.
Defined.

(** X24: [update] with a visual (non-BYTE) tracker delegates to the OpenCV
    tracker and returns its flag and box; the tracker stays active exactly
    when the OpenCV tracker reported success, so one failure ends
    tracking. *)
Theorem update_visual_follows_opencv (C : Tracker.Collaborators)
    (cv_update : Tracker.Cv_state C -> Tracker.Frame C ->
                 Tracker.Cv_state C * (bool * Tracker.Box))
    (self : Tracker.ObjectTracker C) (frame : Tracker.Frame C)
    (t : Tracker.Cv_state C) :
  Tracker.tracker_type self <> "BYTE"%string ->
  Tracker.tracking_active self = true ->
  Tracker.tracker self = Some (Tracker.Cv C t) ->
  exists self',
    TrackerUpdate.update C cv_update self frame
    = TrackerUpdate.Returned self' (fst (snd (cv_update t frame)))
        (Some (snd (snd (cv_update t frame)))) /\
    Tracker.tracking_active self' = fst (snd (cv_update t frame)) /\
    Tracker.tracker self' = Some (Tracker.Cv C (fst (cv_update t frame))) /\
    Tracker.tracked_id self' = Tracker.tracked_id self.
Proof.
  intros Hty Hact Htr. apply byte_is_not_visual in Hty.
  unfold TrackerUpdate.update. rewrite Hty, Hact, Htr. cbn [andb].
  destruct (cv_update t frame) as [t' [ok b]]. cbn [fst snd].
  destruct ok; eexists; (split; [reflexivity|]); cbn; auto.
Qed.

Lemma update_visual_follows_opencv_witness :
  exists self',
    TrackerUpdate.update echo echo_cv_update (started "KCF") []
    = TrackerUpdate.Returned self' (fst (snd (echo_cv_update tt [])))
        (Some (snd (snd (echo_cv_update tt [])))) /\
    Tracker.tracking_active self' = fst (snd (echo_cv_update tt [])) /\
    Tracker.tracker self' = Some (Tracker.Cv echo (fst (echo_cv_update tt []))) /\
    Tracker.tracked_id self' = Tracker.tracked_id (started "KCF").
Proof.
  apply (update_visual_follows_opencv echo echo_cv_update (started "KCF") [] tt).
  - discriminate.
  - reflexivity.
  - reflexivity.
Defined.

(* ================================================================== *)
(** * Further properties: truncated and coalesced packets, stopping     *)
(* ================================================================== *)

Section ChunkFacts.

(** What follows a packet is not looked at. *)
Lemma parse_packet_extends (b rest : list byte) (r : Parsed) :
  parse_packet b = Ret (Some r) -> parse_packet (b ++ rest) = Ret (Some r).
Proof.
  intros H.
  destruct (Z.lt_ge_cases (len b) 10) as [Hs|Hl];
    [rewrite (parse_packet_short b Hs) in H; discriminate|].
  destruct (split_header b) as (a0 & a1 & c & l0 & l1 & s0 & s1 & cm & tl & ->);
    [lia|].
  rewrite <- app_assoc. rewrite parse_packet_cons in H |- *.
  pose proof (u16_nonneg l0 l1) as Hdl.
  set (dl := byte_to_Z l0 + 256 * byte_to_Z l1) in *.
  destruct (Z.ltb_spec (len tl) 2) as [|H2]; [discriminate|].
  destruct (negb (_ =? STX)); [discriminate|].
  destruct (Z.ltb_spec (len tl) (dl + 2)) as [|Hfit]; [discriminate|].
  pose proof (len_nonneg rest) as Hj.
  rewrite len_app.
  replace (len tl + len rest <? 2) with false
    by (symmetry; apply Z.ltb_ge; lia).
  replace (len tl + len rest <? dl + 2) with false
    by (symmetry; apply Z.ltb_ge; lia).
  rewrite firstn_skipn_app_within by (unfold len in Hfit; lia).
  rewrite firstn_app_within by (unfold len in Hfit; lia).
  exact H.
Qed.

Lemma nth_app_left (l1 l2 : list byte) (i : nat) :
  (i < List.length l1)%nat -> nth i (l1 ++ l2) x00 = nth i l1 x00.
Proof. intros H. now apply app_nth1. Qed.

(** A proper prefix of a packet with nothing after its checksum is
    malformed: too short, or shorter than its header declares. *)
Lemma proper_prefix_malformed (p1 p2 : list byte) :
  exact_packet (p1 ++ p2) -> p2 <> [] -> malformed p1.
Proof.
  intros [_ Hlen] Hne. unfold malformed, too_short, truncated.
  destruct (Z.lt_ge_cases (len p1) 10) as [Hs|Hl]; [now left|].
  right; right; left.
  assert (data_len_field (p1 ++ p2) = data_len_field p1) as Hdl.
  { unfold data_len_field, u16_at, byte_at.
    rewrite !nth_app_left by (unfold len in Hl; lia). reflexivity. }
  rewrite Hdl, len_app in Hlen.
  assert (0 < len p2) by (destruct p2; [congruence | unfold len; cbn; lia]).
  lia.
Qed.

End ChunkFacts.

(** X25: a packet cut short is never accepted: [parse_packet] returns
    [None] on every proper prefix of a packet that [build_packet] returns
    (for instance the first part of a packet split across two reads). *)
Theorem truncated_packet_rejected (self self' : SIYIProtocol) (cmd : Z)
    (payload : list byte) (need_ack : bool) (p1 p2 : list byte) :
  build_packet self cmd payload need_ack = (self', Ret (p1 ++ p2)) ->
  p2 <> [] ->
  parse_packet p1 = Ret None.
Proof.
  intros Hb Hne. apply malformed_rejected.
  apply (proper_prefix_malformed p1 p2); [|exact Hne].
  exact (built_exact _ _ _ _ _ _ Hb).
Qed.

Lemma truncated_packet_rejected_witness :
  parse_packet [x55; x66; x01; x01; x00; x00; x00; x00; x00; x59] = Ret None.
Proof.
  apply (truncated_packet_rejected Protocol.init {| sequence := 1 |}
           HEARTBEAT [x00] false
           [x55; x66; x01; x01; x00; x00; x00; x00; x00; x59] [x8b]).
  - vm_compute. reflexivity.
  - discriminate.
Defined.

(** X26: [receive_packet] returns at most the first packet of what one
    [recv] delivers: on an open session, when the received bytes start
    with a packet that parses, that packet's dictionary is returned
    whatever follows it in the same read (the rest, even a second whole
    packet, is dropped); without an open session, on a timeout, on a
    socket error and on an empty read it returns [None]. *)
Theorem receive_packet_takes_first_packet (c : Connection.SIYIConnection)
    (s : Connection.Socket) (pkt rest : list byte) (r : Parsed) :
  Connection.connected c = true ->
  Connection.socket c = Some s ->
  parse_packet pkt = Ret (Some r) ->
  Receive.receive_packet c (Receive.RecvData (pkt ++ rest)) = Some r /\
  Receive.receive_packet c Receive.RecvTimeout = None /\
  Receive.receive_packet c Receive.RecvError = None /\
  Receive.receive_packet c (Receive.RecvData []) = None /\
  (forall c' incoming, link_down c' -> Receive.receive_packet c' incoming = None).
Proof.
  intros Hc Hs Hp. unfold Receive.receive_packet. rewrite Hs, Hc. cbn [negb].
  repeat split.
  - rewrite (parse_packet_extends pkt rest r Hp).
    destruct (pkt ++ rest) eqn:E; [|reflexivity].
    apply app_eq_nil in E. destruct E as [-> _].
    rewrite parse_packet_short in Hp by (unfold len; cbn; lia). discriminate.
  - intros c' incoming [H|H]; rewrite H; [|reflexivity].
    now destruct (Connection.socket c').
Qed.

Lemma receive_packet_takes_first_packet_witness :
  Receive.receive_packet (Sdk.connection (Gimbal.sdk online_controller))
    (Receive.RecvData
       ([x55; x66; x01; x01; x00; x00; x00; x00; x00; x59; x8b]
        ++ [x55; x66; x01; x01; x00; x01; x00; x08; x01; xaa]))
  = Some {| ctrl := 1; data_len := 1; seq := 0; cmd_id := 0;
            data := [x00]; crc16 := 0x8b59 |}.
Proof.
  destruct (receive_packet_takes_first_packet
              (Sdk.connection (Gimbal.sdk online_controller))
              {| Connection.sent := []; Connection.broken := false |}
              [x55; x66; x01; x01; x00; x00; x00; x00; x00; x59; x8b]
              [x55; x66; x01; x01; x00; x01; x00; x08; x01; xaa]
              {| ctrl := 1; data_len := 1; seq := 0; cmd_id := 0;
                 data := [x00]; crc16 := 0x8b59 |}) as [H _].
  - reflexivity.
  - reflexivity.
  - vm_compute. reflexivity.
  - exact H.
Defined.

(** X27: [stop] is not throttled and resets nothing: while connected on a
    healthy session it hands the socket one packet, command id 0x07 with
    payload [00 00], whatever the time of the last command, and leaves
    that time and both PID controllers (accumulators included) as they
    were. *)
Theorem stop_sends_zero_rotate (g : Gimbal.GimbalController) :
  Gimbal.connected g = true ->
  healthy (Sdk.connection (Gimbal.sdk g)) ->
  exists g' pkt r,
    Gimbal.stop g = (g', Ret tt) /\
    Sdk.device_log (Gimbal.sdk g') = Sdk.device_log (Gimbal.sdk g) ++ [pkt] /\
    parse_packet pkt = Ret (Some r) /\
    cmd_id r = GIMBAL_ROTATION /\ data r = [x00; x00] /\
    Gimbal.last_move_time g' = Gimbal.last_move_time g /\
    Gimbal.pid_yaw g' = Gimbal.pid_yaw g /\
    Gimbal.pid_pitch g' = Gimbal.pid_pitch g.
Proof.
  intros Hc Hh.
  destruct (rotate_gimbal_healthy (Gimbal.sdk g) 0 0 Hh)
    as (pkt & r & Hlog & Hret & Hparse & Hcmd & Hdata).
  unfold Gimbal.stop. rewrite Hc. cbn [negb].
  destruct (Sdk.rotate_gimbal (Gimbal.sdk g) 0 0) as [s' res] eqn:E.
  cbn [fst snd] in Hlog, Hret. subst res.
  exists (Gimbal.set_sdk g s'), pkt, r.
  cbn [bind Gimbal.set_sdk Gimbal.sdk Gimbal.last_move_time Gimbal.pid_yaw
       Gimbal.pid_pitch].
  repeat split; auto.
Qed.

Lemma stop_sends_zero_rotate_witness :
  exists g' pkt r,
    Gimbal.stop online_controller = (g', Ret tt) /\
    Sdk.device_log (Gimbal.sdk g')
    = Sdk.device_log (Gimbal.sdk online_controller) ++ [pkt] /\
    parse_packet pkt = Ret (Some r) /\
    cmd_id r = GIMBAL_ROTATION /\ data r = [x00; x00] /\
    Gimbal.last_move_time g' = Gimbal.last_move_time online_controller /\
    Gimbal.pid_yaw g' = Gimbal.pid_yaw online_controller /\
    Gimbal.pid_pitch g' = Gimbal.pid_pitch online_controller.
Proof.
  apply (stop_sends_zero_rotate online_controller).
  - reflexivity.
  - split; [reflexivity|]. split.
    + unfold session_ok, word16. simpl. lia.
    + eexists. split; reflexivity.
Defined.

Section LogSequence.
Import Connection.

Lemma send_packet_healthy_step (c : SIYIConnection) (k : Call) :
  healthy c -> call_fits k ->
  exists pkt,
    let c' := fst (send_packet c (call_cmd k) (call_data k) (call_ack k)) in
    healthy c' /\
    log c' = log c ++ [pkt] /\
    seq_field pkt = sequence (protocol c) /\
    sequence (protocol c') = (sequence (protocol c) + 1) mod 65536.
Proof.
  intros Hh [Hcmd Hlen].
  destruct (send_packet_healthy c (call_cmd k) (call_data k) (call_ack k) Hh Hcmd Hlen)
    as (s & tail & Es & Ht & Hsend).
  destruct Hh as (Hc & Hs & _).
  eexists. rewrite Hsend. cbn [fst]. split; [|split; [|split]].
  - split; [reflexivity|]. split.
    + unfold session_ok, word16. cbn [protocol sequence].
      apply Z.mod_pos_bound. lia.
    + eexists. split; reflexivity.
  - unfold log. cbn [socket sent]. rewrite Es. reflexivity.
  - unfold seq_field, u16_at, byte_at, header_bytes. cbn [app nth].
    now apply u16_roundtrip.
  - reflexivity.
Qed.

End LogSequence.

(** X28: on a healthy session, a series of [send_packet] calls whose
    arguments fit writes one packet per call, and the packets in the
    socket's log carry consecutive sequence numbers modulo 65536, starting
    from the counter's value before the first call. *)
Theorem socket_log_sequence_is_consecutive (calls : list Call)
    (c : Connection.SIYIConnection) :
  healthy c ->
  Forall call_fits calls ->
  exists pkts,
    log (send_all c calls) = log c ++ pkts /\
    List.length pkts = List.length calls /\
    (forall (i : nat) (pkt : list byte),
       nth_error pkts i = Some pkt ->
       seq_field pkt
       = (sequence (Connection.protocol c) + Z.of_nat i) mod 65536) /\
    healthy (send_all c calls).
Proof.
  revert c. induction calls as [|k calls IH]; intros c Hh Hfit.
  - exists []. cbn. rewrite app_nil_r.
    split; [reflexivity|]. split; [reflexivity|]. split; [|exact Hh].
    intros [|i] pkt; discriminate.
  - inversion Hfit as [|? ? Hk Hrest]; subst.
    destruct (send_packet_healthy_step c k Hh Hk) as (pkt & Hh' & Hlog & Hseq & Hnext).
    unfold send_all. cbn [fold_left].
    fold (send_all (fst (Connection.send_packet c (call_cmd k) (call_data k)
                           (call_ack k))) calls).
    destruct (IH _ Hh' Hrest) as (pkts & Hl & Hn & Hi & Hh'').
    exists (pkt :: pkts). rewrite Hl, Hlog, <- app_assoc.
    split; [reflexivity|]. split; [cbn [List.length]; lia|]. split; [|exact Hh''].
    intros [|i] p Hp.
    + cbn in Hp. injection Hp as <-. rewrite Hseq, Z.add_0_r.
      symmetry. apply Z.mod_small. destruct Hh as (_ & Hs & _). exact Hs.
    + cbn [nth_error] in Hp. rewrite (Hi i p Hp), Hnext.
      rewrite Z.add_mod_idemp_l by lia. f_equal. lia.
Qed.

Lemma socket_log_sequence_is_consecutive_witness :
  exists pkts,
    log (send_all (Sdk.connection (Gimbal.sdk online_controller))
           [ {| call_cmd := HEARTBEAT; call_data := [x00]; call_ack := false |};
             {| call_cmd := CENTER; call_data := [x01]; call_ack := false |} ])
    = log (Sdk.connection (Gimbal.sdk online_controller)) ++ pkts /\
    List.length pkts
    = List.length
        [ {| call_cmd := HEARTBEAT; call_data := [x00]; call_ack := false |};
          {| call_cmd := CENTER; call_data := [x01]; call_ack := false |} ] /\
    (forall (i : nat) (pkt : list byte),
       nth_error pkts i = Some pkt ->
       seq_field pkt
       = (sequence (Connection.protocol
                      (Sdk.connection (Gimbal.sdk online_controller)))
          + Z.of_nat i) mod 65536) /\
    healthy
      (send_all (Sdk.connection (Gimbal.sdk online_controller))
         [ {| call_cmd := HEARTBEAT; call_data := [x00]; call_ack := false |};
           {| call_cmd := CENTER; call_data := [x01]; call_ack := false |} ]).
Proof.
  apply socket_log_sequence_is_consecutive.
  - split; [reflexivity|]. split.
    + unfold session_ok, word16. simpl. lia.
    + eexists. split; reflexivity.
  - repeat constructor; unfold HEARTBEAT, CENTER, len; simpl; lia.
Defined.
